(** * godel: plugin task invocation and legacy configuration migration

    A shallow embedding of
    - [apps/distgo/cmd/publish/publish.go]      (checksum comparison),
    - [framework/pluginapi] task descriptors     ([NewTaskInfo], [toTask],
      [globalFlagArgs]),
    - [apps/distgo/config]                       ([RawDistConfigs.UnmarshalYAML]),
    - [framework/builtintasks/upgradelegacyconfig.go] (the migration task),
    together with the properties of the specification that concern them.

    Go strings are byte sequences: they are [string]s here, one [ascii] per
    byte.  Slices that are only appended to and read are [list]s.  A
    [map[string]struct{}] is a [gset string], a [map[string]T] a
    [gmap string T]. *)

From Stdlib Require Import ZArith Ascii String List Bool Lia.
From stdpp Require Import base tactics option list sorting gmap strings.

Local Open Scope Z_scope.

(** ** Errors

    Go's [error] values, as far as the code tells them apart: plain messages
    ([errors.New], [fmt.Errorf], [errors.Errorf] and the errors of the
    operating system), the [*exec.ExitError] of a child process that ran and
    did not exit with status 0, and [errors.Wrapf], which keeps the cause. *)
Inductive error : Type :=
  | errorString (msg : string)
  | ExitError (status : Z)
  | Wrapf (cause : error) (msg : string).

(** [err.Error()]. *)
Fixpoint Error (e : error) : string :=
  match e with
  | errorString msg => msg
  | ExitError status => "exit status"
  | Wrapf cause msg => msg +:+ ": " +:+ Error cause
  end.

(** The cause chain of an error, outermost first. *)
Fixpoint causes (e : error) : list error :=
  match e with
  | Wrapf cause _ => e :: causes cause
  | _ => [e]
  end.

(** A Go call returning [(T, error)]. *)
Abbreviation result T := (error + T)%type.
Abbreviation Ok x := (inr x) (only parsing).
Abbreviation Err e := (inl e) (only parsing).

(** ** publish.go: checksums *)
Module Publish.

Record checksums : Type := {
  SHA1 : string;
  SHA256 : string;
  MD5 : string
}.

Definition nonEmptyEqual (s1 s2 : string) : bool :=
  negb (String.eqb s1 "") && negb (String.eqb s2 "") && String.eqb s1 s2.

Definition nonEmptyDiffer (s1 s2 : string) : bool :=
  negb (String.eqb s1 "") && negb (String.eqb s2 "") && negb (String.eqb s1 s2).

Definition checksums_match (c other : checksums) : bool :=
  let nonEmptyEq :=
    nonEmptyEqual (MD5 c) (MD5 other) || nonEmptyEqual (SHA1 c) (SHA1 other)
    || nonEmptyEqual (SHA256 c) (SHA256 other) in
  if negb nonEmptyEq then false
  else if nonEmptyDiffer (MD5 c) (MD5 other) || nonEmptyDiffer (SHA1 c) (SHA1 other)
          || nonEmptyDiffer (SHA256 c) (SHA256 other) then false
  else true.

(** The two relations of the claim, on one pair of digests. *)
Definition bothPresentEqual (s1 s2 : string) : Prop :=
  s1 ≠ "" ∧ s2 ≠ "" ∧ s1 = s2.
Definition bothPresentDifferent (s1 s2 : string) : Prop :=
  s1 ≠ "" ∧ s2 ≠ "" ∧ s1 ≠ s2.

Lemma nonEmptyEqual_spec s1 s2 :
  nonEmptyEqual s1 s2 = true ↔ bothPresentEqual s1 s2.
Proof.
  unfold nonEmptyEqual, bothPresentEqual.
  rewrite !andb_true_iff, !negb_true_iff, !String.eqb_neq, String.eqb_eq.
  tauto.
Qed.

Lemma nonEmptyDiffer_spec s1 s2 :
  nonEmptyDiffer s1 s2 = true ↔ bothPresentDifferent s1 s2.
Proof.
  unfold nonEmptyDiffer, bothPresentDifferent.
  rewrite !andb_true_iff, !negb_true_iff, !String.eqb_neq.
  tauto.
Qed.

Lemma nonEmptyEqual_sym s1 s2 : nonEmptyEqual s1 s2 = nonEmptyEqual s2 s1.
Proof.
  unfold nonEmptyEqual. rewrite (String.eqb_sym s1 s2).
  destruct (String.eqb s1 ""), (String.eqb s2 ""); reflexivity.
Qed.

Lemma nonEmptyDiffer_sym s1 s2 : nonEmptyDiffer s1 s2 = nonEmptyDiffer s2 s1.
Proof.
  unfold nonEmptyDiffer. rewrite (String.eqb_sym s1 s2).
  destruct (String.eqb s1 ""), (String.eqb s2 ""); reflexivity.
Qed.

Example match_md5_only :
  checksums_match {| SHA1 := ""; SHA256 := ""; MD5 := "d41d" |}
                  {| SHA1 := "da39"; SHA256 := ""; MD5 := "d41d" |} = true.
Proof. reflexivity. Qed.

Example match_suspect :
  checksums_match {| SHA1 := "aa"; SHA256 := ""; MD5 := "d41d" |}
                  {| SHA1 := "da39"; SHA256 := ""; MD5 := "d41d" |} = false.
Proof. reflexivity. Qed.

Example match_nothing_shared :
  checksums_match {| SHA1 := "da39"; SHA256 := ""; MD5 := "" |}
                  {| SHA1 := ""; SHA256 := ""; MD5 := "d41d" |} = false.
Proof. reflexivity. Qed.

(** C10. [match] is symmetric, and it holds exactly when some digest pair is
    present on both sides and equal while no digest pair is present on both
    sides and different. *)
Theorem checksums_match_symmetric_and_exact (a b : checksums) :
  checksums_match a b = checksums_match b a ∧
  (checksums_match a b = true ↔
     (bothPresentEqual (MD5 a) (MD5 b) ∨ bothPresentEqual (SHA1 a) (SHA1 b)
      ∨ bothPresentEqual (SHA256 a) (SHA256 b)) ∧
     ¬ (bothPresentDifferent (MD5 a) (MD5 b) ∨ bothPresentDifferent (SHA1 a) (SHA1 b)
        ∨ bothPresentDifferent (SHA256 a) (SHA256 b))).
Proof.
  split.
  - unfold checksums_match.
    rewrite (nonEmptyEqual_sym (MD5 a)), (nonEmptyEqual_sym (SHA1 a)),
      (nonEmptyEqual_sym (SHA256 a)), (nonEmptyDiffer_sym (MD5 a)),
      (nonEmptyDiffer_sym (SHA1 a)), (nonEmptyDiffer_sym (SHA256 a)).
    reflexivity.
  - rewrite <- !nonEmptyEqual_spec, <- !nonEmptyDiffer_spec.
    unfold checksums_match.
    destruct (nonEmptyEqual (MD5 a) (MD5 b)), (nonEmptyEqual (SHA1 a) (SHA1 b)),
      (nonEmptyEqual (SHA256 a) (SHA256 b)), (nonEmptyDiffer (MD5 a) (MD5 b)),
      (nonEmptyDiffer (SHA1 a) (SHA1 b)), (nonEmptyDiffer (SHA256 a) (SHA256 b));
      simpl; intuition congruence.
Qed.

End Publish.

(** ** distgo config: RawDistConfigs *)
Module Config.

Section RawDistConfigs.

(** [Dist] is a plain struct of settings; [UnmarshalYAML] never looks inside. *)
Variable Dist : Type.

(** The [unmarshal func(interface{}) error] that yaml.v2 hands to
    [UnmarshalYAML] decodes the YAML node at hand into the value it is pointed
    at.  The method points it at a [[]Dist] and at a [Dist]; the callback is
    what it answers in each case. *)
Record unmarshalFn : Type := {
  into_slice : result (list Dist);
  into_single : result Dist
}.

Definition noDistError : error :=
  errorString "if `dist` key is specified, there must be at least one dist".

(** [(out *RawDistConfigs) UnmarshalYAML(unmarshal)]: the returned error and
    the value of [*out] afterwards. *)
Definition UnmarshalYAML (unmarshal : unmarshalFn) (out : list Dist)
  : option error * list Dist :=
  match into_slice unmarshal with
  | Ok multiple =>
      if Nat.eqb (length multiple) 0 then (Some noDistError, out)
      else (None, multiple)
  | Err _ =>
      match into_single unmarshal with
      | Err err => (Some err, out)
      | Ok single => (None, [single])
      end
  end.

(** C9. [UnmarshalYAML] succeeds in two cases and in no other: the node
    decodes as a sequence with at least one element, which is taken as it is
    (whatever the node would decode to as a single mapping); or it does not
    decode as a sequence and decodes as a single mapping, which is wrapped in
    a one-element list.  So [*out] is never empty after a success.  A sequence
    that decodes to no element is rejected with an error (whatever the node
    would decode to as a single mapping) and [*out] is left as it was. *)
Theorem UnmarshalYAML_nonempty (unmarshal : unmarshalFn) (out : list Dist) :
  (∀ dists,
     UnmarshalYAML unmarshal out = (None, dists)
     ↔ dists ≠ [] ∧
       (into_slice unmarshal = Ok dists ∨
        ∃ e single, into_slice unmarshal = Err e ∧ into_single unmarshal = Ok single ∧
                    dists = [single])) ∧
  (∀ single, UnmarshalYAML {| into_slice := Ok []; into_single := single |} out
             = (Some noDistError, out)).
Proof.
  unfold UnmarshalYAML. split; [|reflexivity].
  intros dists. split.
  - intros Hrun. destruct (into_slice unmarshal) as [e|multiple].
    + destruct (into_single unmarshal) as [e'|single]; simplify_eq.
      split; [discriminate|]. right. by exists e, single.
    + destruct multiple; simplify_eq/=. split; [discriminate | by left].
  - intros [Hne [-> | (e & single & -> & -> & ->)]]; [|done].
    by destruct dists.
Qed.

End RawDistConfigs.

Arguments into_slice {Dist} _.
Arguments into_single {Dist} _.
Arguments UnmarshalYAML {Dist} _ _.

Example unmarshal_sequence :
  UnmarshalYAML {| into_slice := Ok ["sls"; "rpm"]; into_single := Err (errorString "cannot unmarshal !!seq") |} []
  = (None, ["sls"; "rpm"]).
Proof. reflexivity. Qed.

Example unmarshal_single :
  UnmarshalYAML {| into_slice := Err (errorString "cannot unmarshal !!map"); into_single := Ok "bin" |} []
  = (None, ["bin"]).
Proof. reflexivity. Qed.

Example unmarshal_empty_sequence :
  UnmarshalYAML {| into_slice := Ok []; into_single := Ok "bin" |} ["old"]
  = (Some noDistError, ["old"]).
Proof. reflexivity. Qed.

Lemma UnmarshalYAML_nonempty_witness :
  UnmarshalYAML {| into_slice := Ok ["sls"; "rpm"]; into_single := Ok "sls" |} ["old"]
  = (None, ["sls"; "rpm"]) ∧
  UnmarshalYAML {| into_slice := Err (errorString "cannot unmarshal !!map");
                   into_single := Ok "bin" |} ["old"]
  = (None, ["bin"]) ∧
  UnmarshalYAML {| into_slice := Ok []; into_single := Ok "bin" |} ["old"]
  = (Some noDistError, ["old"]).
Proof.
  split; [|split].
  - apply (UnmarshalYAML_nonempty string
             {| into_slice := Ok ["sls"; "rpm"]; into_single := Ok "sls" |} ["old"]).
    split; [discriminate | by left].
  - apply (UnmarshalYAML_nonempty string
             {| into_slice := Err (errorString "cannot unmarshal !!map");
                into_single := Ok "bin" |} ["old"]).
    split; [discriminate|]. right. by eexists _, _.
  - apply (UnmarshalYAML_nonempty string
             {| into_slice := Ok []; into_single := Ok "bin" |} ["old"]).
Defined.

End Config.

(** ** pluginapi: task descriptors and their invocation *)
Module Pluginapi.

(** *** Runes

    [for _, r := range name] walks the code points of the UTF-8 bytes of
    [name]; a byte that starts no well-formed sequence yields [RuneError] and
    the walk advances by one byte. *)
Definition rune : Type := Z.

Definition RuneError : rune := 0xFFFD.
Definition MaxLatin1 : rune := 0xFF.

Definition byteval (a : ascii) : Z := Z.of_N (N_of_ascii a).

(** For a leading byte of a multi-byte sequence: the length of the sequence
    and the range the second byte must lie in ([utf8.first] and
    [utf8.acceptRanges]). *)
Definition first (s0 : Z) : option (Z * Z * Z) :=
  if (0xC2 <=? s0) && (s0 <=? 0xDF) then Some (2, 0x80, 0xBF)
  else if s0 =? 0xE0 then Some (3, 0xA0, 0xBF)
  else if (0xE1 <=? s0) && (s0 <=? 0xEC) then Some (3, 0x80, 0xBF)
  else if s0 =? 0xED then Some (3, 0x80, 0x9F)
  else if (0xEE <=? s0) && (s0 <=? 0xEF) then Some (3, 0x80, 0xBF)
  else if s0 =? 0xF0 then Some (4, 0x90, 0xBF)
  else if (0xF1 <=? s0) && (s0 <=? 0xF3) then Some (4, 0x80, 0xBF)
  else if s0 =? 0xF4 then Some (4, 0x80, 0x8F)
  else None.

Definition outside (lo hi b : Z) : bool := (b <? lo) || (hi <? b).

Definition rune2 (s0 s1 : Z) : rune :=
  Z.lor (Z.shiftl (Z.land s0 0x1F) 6) (Z.land s1 0x3F).
Definition rune3 (s0 s1 s2 : Z) : rune :=
  Z.lor (Z.lor (Z.shiftl (Z.land s0 0x0F) 12) (Z.shiftl (Z.land s1 0x3F) 6))
        (Z.land s2 0x3F).
Definition rune4 (s0 s1 s2 s3 : Z) : rune :=
  Z.lor (Z.lor (Z.lor (Z.shiftl (Z.land s0 0x07) 18) (Z.shiftl (Z.land s1 0x3F) 12))
               (Z.shiftl (Z.land s2 0x3F) 6))
        (Z.land s3 0x3F).

(** The runes a [range] loop over the string yields, in order. *)
Fixpoint runes (s : string) : list rune :=
  match s with
  | EmptyString => []
  | String a0 t0 =>
      let s0 := byteval a0 in
      match first s0 with
      | None => (if s0 <? 0x80 then s0 else RuneError) :: runes t0
      | Some (sz, lo, hi) =>
          match t0 with
          | EmptyString => RuneError :: runes t0
          | String a1 t1 =>
              let s1 := byteval a1 in
              if outside lo hi s1 then RuneError :: runes t0
              else if sz <=? 2 then rune2 s0 s1 :: runes t1
              else
                match t1 with
                | EmptyString => RuneError :: runes t0
                | String a2 t2 =>
                    let s2 := byteval a2 in
                    if outside 0x80 0xBF s2 then RuneError :: runes t0
                    else if sz <=? 3 then rune3 s0 s1 s2 :: runes t2
                    else
                      match t2 with
                      | EmptyString => RuneError :: runes t0
                      | String a3 t3 =>
                          let s3 := byteval a3 in
                          if outside 0x80 0xBF s3 then RuneError :: runes t0
                          else rune4 s0 s1 s2 s3 :: runes t3
                      end
                end
          end
      end
  end.

(** [unicode.White_Space] beyond Latin-1. *)
Definition White_Space (r : rune) : bool :=
  (r =? 0x1680) || ((0x2000 <=? r) && (r <=? 0x200A))
  || ((0x2028 <=? r) && (r <=? 0x2029)) || (r =? 0x202F) || (r =? 0x205F)
  || (r =? 0x3000).

(** [unicode.IsSpace]. *)
Definition IsSpace (r : rune) : bool :=
  if (0 <=? r) && (r <=? MaxLatin1) then
    (r =? 0x09) || (r =? 0x0A) || (r =? 0x0B) || (r =? 0x0C) || (r =? 0x0D)
    || (r =? 0x20) || (r =? 0x85) || (r =? 0xA0)
  else White_Space r.

(** *** Descriptors *)

Record globalFlagOptionsImpl : Type := {
  DebugFlagVar : string;
  ProjectDirFlagVar : string;
  GodelConfigFlagVar : string;
  ConfigFlagVar : string
}.

Record verifyFlagImpl : Type := {
  VerifyNameVar : string;
  VerifyDescriptionVar : string;
  TypeVar : string
}.

Record verifyOptionsImpl : Type := {
  VerifyTaskFlagsVar : list verifyFlagImpl;
  OrderingVar : list string;
  ApplyTrueArgsVar : list string;
  ApplyFalseArgsVar : list string
}.

Record taskInfoImpl : Type := {
  NameVar : string;
  DescriptionVar : string;
  CommandVar : list string;
  GlobalFlagOptionsVar : option globalFlagOptionsImpl;
  VerifyOptionsVar : option verifyOptionsImpl
}.

(** [TaskInfoParam] has an unexported method, so its values are the ones the
    package builds: the three constructors below. *)
Inductive TaskInfoParam : Type :=
  | TaskInfoCommand (command : list string)
  | TaskInfoGlobalFlagOptions (globalFlagOpts : globalFlagOptionsImpl)
  | TaskInfoVerifyOptions (verifyOpts : verifyOptionsImpl).

Definition apply (p : TaskInfoParam) (impl : taskInfoImpl) : taskInfoImpl :=
  match p with
  | TaskInfoCommand command =>
      {| NameVar := NameVar impl; DescriptionVar := DescriptionVar impl;
         CommandVar := command;
         GlobalFlagOptionsVar := GlobalFlagOptionsVar impl;
         VerifyOptionsVar := VerifyOptionsVar impl |}
  | TaskInfoGlobalFlagOptions globalFlagOpts =>
      {| NameVar := NameVar impl; DescriptionVar := DescriptionVar impl;
         CommandVar := CommandVar impl;
         GlobalFlagOptionsVar :=
           Some {| DebugFlagVar := DebugFlagVar globalFlagOpts;
                   ProjectDirFlagVar := ProjectDirFlagVar globalFlagOpts;
                   GodelConfigFlagVar := GodelConfigFlagVar globalFlagOpts;
                   ConfigFlagVar := ConfigFlagVar globalFlagOpts |};
         VerifyOptionsVar := VerifyOptionsVar impl |}
  | TaskInfoVerifyOptions verifyOpts =>
      {| NameVar := NameVar impl; DescriptionVar := DescriptionVar impl;
         CommandVar := CommandVar impl;
         GlobalFlagOptionsVar := GlobalFlagOptionsVar impl;
         VerifyOptionsVar :=
           Some {| VerifyTaskFlagsVar := VerifyTaskFlagsVar verifyOpts;
                   OrderingVar := OrderingVar verifyOpts;
                   ApplyTrueArgsVar := ApplyTrueArgsVar verifyOpts;
                   ApplyFalseArgsVar := ApplyFalseArgsVar verifyOpts |} |}
  end.

(** The loop over [params]; a [nil] parameter ([None]) is skipped. *)
Definition applyParams (params : list (option TaskInfoParam)) (impl : taskInfoImpl)
  : taskInfoImpl :=
  foldl (λ impl p, match p with None => impl | Some p => apply p impl end)
        impl params.

(** The [%q] verb of the error message. *)
Definition whitespaceError (quote : string → string) (name : string) : error :=
  errorString ("task name cannot contain whitespace: " +:+ quote name).

(** The first loop of [NewTaskInfo]: does some rune of the name satisfy
    [unicode.IsSpace]? *)
Definition hasSpace (name : string) : bool := existsb IsSpace (runes name).

Definition NewTaskInfo (quote : string → string) (name description : string)
    (params : list (option TaskInfoParam)) : result taskInfoImpl :=
  if hasSpace name then Err (whitespaceError quote name)
  else
    Ok (applyParams params
          {| NameVar := name; DescriptionVar := description; CommandVar := [];
             GlobalFlagOptionsVar := None; VerifyOptionsVar := None |}).

(** *** Tasks ([godellauncher]) *)

Record GlobalFlagOptions : Type := {
  DebugFlag : string;
  ProjectDirFlag : string;
  GodelConfigFlag : string;
  ConfigFlag : string
}.

Record GlobalConfig : Type := {
  Executable : string;
  Wrapper : string;
  Debug : bool;
  TaskName : string;
  TaskArgs : list string
}.

Record Task : Type := {
  Name : string;
  Description : string;
  ConfigFile : string;
  Verify : option verifyOptionsImpl;
  GlobalFlagOpts : GlobalFlagOptions
}.

(** [toGodelGlobalFlagOptions] is declared outside the files at hand; it
    carries the four flag spellings over to the launcher's struct. *)
Definition toGodelGlobalFlagOptions (g : globalFlagOptionsImpl) : GlobalFlagOptions :=
  {| DebugFlag := DebugFlagVar g; ProjectDirFlag := ProjectDirFlagVar g;
     GodelConfigFlag := GodelConfigFlagVar g; ConfigFlag := ConfigFlagVar g |}.

(** The data of the task [toTask] returns (its [RunImpl] is [RunImpl] below);
    without global flag options the launcher's struct is the zero value. *)
Definition toTask (ti : taskInfoImpl) (pluginExecPath cfgFileName : string) : Task :=
  {| Name := NameVar ti; Description := DescriptionVar ti;
     ConfigFile := cfgFileName;
     Verify := VerifyOptionsVar ti;
     GlobalFlagOpts :=
       match GlobalFlagOptionsVar ti with
       | Some g => toGodelGlobalFlagOptions g
       | None => {| DebugFlag := ""; ProjectDirFlag := ""; GodelConfigFlag := "";
                    ConfigFlag := "" |}
       end |}.

Definition nonEmpty (s : string) : bool := negb (String.eqb s "").

Section Invocation.

(** What the invocation uses and the files at hand do not define: [path.Dir],
    [path.Join], the launcher's [ConfigDirPath] and its constant
    [GödelConfigYML], and the outcome of running the command
    ([exec.Command(path, args...).Run()], [None] for a [nil] error). *)
Variable pathDir : string → string.
Variable pathJoin : string → string → string.
Variable ConfigDirPath : string → result string.
Variable GodelConfigYML : string.
Variable cmdRun : string → list string → option error.

Definition globalFlagArgs (t : Task) (global : GlobalConfig) : result (list string) :=
  let opts := GlobalFlagOpts t in
  let args := [] in
  let args :=
    if Debug global && nonEmpty (DebugFlag opts) then args ++ [DebugFlag opts]
    else args in
  if String.eqb (Wrapper global) "" then Ok args
  else
    let projectDir := pathDir (Wrapper global) in
    let args :=
      if nonEmpty (ProjectDirFlag opts) then args ++ [ProjectDirFlag opts; projectDir]
      else args in
    if String.eqb (GodelConfigFlag opts) ""
       && (String.eqb (ConfigFlag opts) "" || String.eqb (ConfigFile t) "")
    then Ok args
    else
      match ConfigDirPath projectDir with
      | Err err => Err (Wrapf err "failed to determine config directory path")
      | Ok cfgDir =>
          let args :=
            if nonEmpty (GodelConfigFlag opts)
            then args ++ [GodelConfigFlag opts; pathJoin cfgDir GodelConfigYML]
            else args in
          let args :=
            if nonEmpty (ConfigFlag opts) && nonEmpty (ConfigFile t)
            then args ++ [ConfigFlag opts; pathJoin cfgDir (ConfigFile t)]
            else args in
          Ok args
      end.

(** The argument vector [RunImpl] hands to [exec.Command]. *)
Definition cmdArgs (ti : taskInfoImpl) (t : Task) (global : GlobalConfig)
  : result (list string) :=
  match globalFlagArgs t global with
  | Err err => Err err
  | Ok cmdArgs => Ok ((cmdArgs ++ CommandVar ti) ++ TaskArgs global)
  end.

(** The [RunImpl] closure of [toTask]; [None] is a [nil] error. *)
Definition RunImpl (ti : taskInfoImpl) (pluginExecPath : string)
    (t : Task) (global : GlobalConfig) : option error :=
  match cmdArgs ti t global with
  | Err err => Some err
  | Ok args =>
      match cmdRun pluginExecPath args with
      | Some (ExitError _) => Some (errorString "")
      | Some err => Some (Wrapf err "plugin execution failed")
      | None => None
      end
  end.

(** The argument vector in the words of the claim: a flag/value pair for each
    of the three flags the descriptor accepts, whenever there is a wrapper. *)
Definition flagPair (flag value : string) : list string :=
  if nonEmpty flag then [flag; value] else [].

Definition debugArgs (t : Task) (global : GlobalConfig) : list string :=
  if Debug global && nonEmpty (DebugFlag (GlobalFlagOpts t))
  then [DebugFlag (GlobalFlagOpts t)] else [].

Definition claimed_argv (ti : taskInfoImpl) (t : Task) (global : GlobalConfig)
    (cfgDir : string) : list string :=
  debugArgs t global
  ++ (if nonEmpty (Wrapper global) then
        flagPair (ProjectDirFlag (GlobalFlagOpts t)) (pathDir (Wrapper global))
        ++ flagPair (GodelConfigFlag (GlobalFlagOpts t)) (pathJoin cfgDir GodelConfigYML)
        ++ flagPair (ConfigFlag (GlobalFlagOpts t)) (pathJoin cfgDir (ConfigFile t))
      else [])
  ++ CommandVar ti ++ TaskArgs global.

(** The same, with the plugin-config pair only for a task that has a
    configuration file. *)
Definition amended_argv (ti : taskInfoImpl) (t : Task) (global : GlobalConfig)
    (cfgDir : string) : list string :=
  debugArgs t global
  ++ (if nonEmpty (Wrapper global) then
        flagPair (ProjectDirFlag (GlobalFlagOpts t)) (pathDir (Wrapper global))
        ++ flagPair (GodelConfigFlag (GlobalFlagOpts t)) (pathJoin cfgDir GodelConfigYML)
        ++ (if nonEmpty (ConfigFile t)
            then flagPair (ConfigFlag (GlobalFlagOpts t)) (pathJoin cfgDir (ConfigFile t))
            else [])
      else [])
  ++ CommandVar ti ++ TaskArgs global.

(** Does the construction have to resolve the config directory? *)
Definition needsConfigDir (t : Task) (global : GlobalConfig) : bool :=
  nonEmpty (Wrapper global)
  && (nonEmpty (GodelConfigFlag (GlobalFlagOpts t))
      || (nonEmpty (ConfigFlag (GlobalFlagOpts t)) && nonEmpty (ConfigFile t))).

(** The construction, case by case. *)
Lemma globalFlagArgs_eq (t : Task) (global : GlobalConfig) :
  globalFlagArgs t global =
  if needsConfigDir t global then
    match ConfigDirPath (pathDir (Wrapper global)) with
    | Err err => Err (Wrapf err "failed to determine config directory path")
    | Ok cfgDir =>
        Ok (debugArgs t global
            ++ flagPair (ProjectDirFlag (GlobalFlagOpts t)) (pathDir (Wrapper global))
            ++ flagPair (GodelConfigFlag (GlobalFlagOpts t)) (pathJoin cfgDir GodelConfigYML)
            ++ (if nonEmpty (ConfigFile t)
                then flagPair (ConfigFlag (GlobalFlagOpts t)) (pathJoin cfgDir (ConfigFile t))
                else []))
    end
  else
    Ok (debugArgs t global
        ++ (if nonEmpty (Wrapper global)
            then flagPair (ProjectDirFlag (GlobalFlagOpts t)) (pathDir (Wrapper global))
            else [])).
Proof.
  unfold globalFlagArgs, needsConfigDir, debugArgs, flagPair, nonEmpty.
  destruct (Debug global), (String.eqb (DebugFlag (GlobalFlagOpts t)) ""),
    (String.eqb (Wrapper global) ""), (String.eqb (ProjectDirFlag (GlobalFlagOpts t)) ""),
    (String.eqb (GodelConfigFlag (GlobalFlagOpts t)) ""),
    (String.eqb (ConfigFlag (GlobalFlagOpts t)) ""), (String.eqb (ConfigFile t) "");
    simpl; try reflexivity;
    destruct (ConfigDirPath (pathDir (Wrapper global))); reflexivity.
Qed.

Lemma cmdArgs_amended (ti : taskInfoImpl) (t : Task) (global : GlobalConfig)
    (argv : list string) :
  cmdArgs ti t global = Ok argv →
  ∃ cfgDir, argv = amended_argv ti t global cfgDir ∧
            (needsConfigDir t global = true →
             ConfigDirPath (pathDir (Wrapper global)) = Ok cfgDir).
Proof.
  unfold cmdArgs. rewrite globalFlagArgs_eq. unfold amended_argv.
  destruct (needsConfigDir t global) eqn:Hneeds.
  - destruct (ConfigDirPath (pathDir (Wrapper global))) as [err|cfgDir]; [discriminate|].
    intros [= <-]. exists cfgDir. split; [|done].
    apply andb_true_iff in Hneeds as [-> _]. by rewrite <- !app_assoc.
  - intros [= <-]. exists "". split; [|discriminate].
    unfold needsConfigDir in Hneeds. unfold flagPair at 3 4.
    destruct (nonEmpty (Wrapper global)); simpl in *; [|by rewrite <- !app_assoc].
    destruct (nonEmpty (GodelConfigFlag (GlobalFlagOpts t))); [discriminate|].
    destruct (nonEmpty (ConfigFlag (GlobalFlagOpts t))), (nonEmpty (ConfigFile t));
      try discriminate; simpl; by rewrite <- !app_assoc, ?app_nil_r.
Qed.

(** C3 (as amended). Whenever the construction succeeds, the argument vector
    of a task built by [toTask] is: the debug flag when [Debug] is set and the
    descriptor accepts one; then, only with a non-empty [Wrapper], the
    project-dir pair, the godel-config pair and - only for a task that has a
    configuration file - the plugin-config pair, each for a flag the
    descriptor accepts; then the [Command] tokens; then [TaskArgs].  The
    config directory is the one [ConfigDirPath] resolves whenever a pair needs
    it.  Without a wrapper the vector is the debug flag, [Command] and
    [TaskArgs]. *)
Theorem cmdArgs_shape (ti : taskInfoImpl) (pluginExecPath cfgFileName : string)
    (global : GlobalConfig) (argv : list string) :
  cmdArgs ti (toTask ti pluginExecPath cfgFileName) global = Ok argv →
  (∃ cfgDir,
     argv = amended_argv ti (toTask ti pluginExecPath cfgFileName) global cfgDir ∧
     (needsConfigDir (toTask ti pluginExecPath cfgFileName) global = true →
      ConfigDirPath (pathDir (Wrapper global)) = Ok cfgDir)) ∧
  (Wrapper global = "" →
   argv = debugArgs (toTask ti pluginExecPath cfgFileName) global
          ++ CommandVar ti ++ TaskArgs global).
Proof.
  intros Hargs. split; [by apply cmdArgs_amended|].
  intros Hw. apply cmdArgs_amended in Hargs as (cfgDir & -> & _).
  unfold amended_argv, nonEmpty. by rewrite Hw.
Qed.

(** C7. Once the argument vector is built: a child that ran and exited with a
    non-zero status makes [RunImpl] return an error whose message is empty;
    any other failure of the launch makes it return that failure wrapped
    with the context "plugin execution failed". *)
Theorem RunImpl_failure (ti : taskInfoImpl) (pluginExecPath : string) (t : Task)
    (global : GlobalConfig) (args : list string) (err : error) :
  cmdArgs ti t global = Ok args →
  cmdRun pluginExecPath args = Some err →
  ∃ failure, RunImpl ti pluginExecPath t global = Some failure ∧
    match err with
    | ExitError _ => failure = errorString "" ∧ Error failure = ""
    | _ => failure = Wrapf err "plugin execution failed" ∧
           Error failure = "plugin execution failed: " +:+ Error err ∧
           causes failure = failure :: causes err
    end.
Proof.
  intros Hargs Hrun. unfold RunImpl. rewrite Hargs, Hrun.
  destruct err; eexists; (split; [reflexivity|]); repeat split.
Qed.

End Invocation.

Arguments needsConfigDir t global : clear implicits.
Arguments debugArgs t global : clear implicits.

(** *** Descriptor construction *)

Lemma hasSpace_spec (name : string) :
  hasSpace name = true ↔ Exists (λ r, IsSpace r = true) (runes name).
Proof.
  unfold hasSpace. rewrite existsb_exists, Exists_exists.
  split; intros (r & Hin & Hr); exists r; split; try done; by apply list_elem_of_In.
Qed.

(** C8. [NewTaskInfo] fails, with the whitespace error, exactly when some rune
    of the name is a whitespace character ([unicode.IsSpace]); for every other
    name it succeeds and returns a descriptor. *)
Theorem NewTaskInfo_whitespace (quote : string → string) (name description : string)
    (params : list (option TaskInfoParam)) :
  (NewTaskInfo quote name description params = Err (whitespaceError quote name)
   ↔ Exists (λ r, IsSpace r = true) (runes name)) ∧
  ((∃ ti, NewTaskInfo quote name description params = Ok ti)
   ↔ Forall (λ r, IsSpace r = false) (runes name)) ∧
  ((∃ e, NewTaskInfo quote name description params = Err e)
   ↔ ¬ ∃ ti, NewTaskInfo quote name description params = Ok ti).
Proof.
  rewrite <- hasSpace_spec.
  assert (Forall (λ r, IsSpace r = false) (runes name) ↔ hasSpace name = false) as ->.
  { rewrite <- not_true_iff_false, hasSpace_spec, <- Forall_Exists_neg.
    apply Forall_iff. intros r. by rewrite not_true_iff_false. }
  unfold NewTaskInfo. destruct (hasSpace name).
  - split; [|split].
    + split; done.
    + split; [intros [ti ?]; done | done].
    + split; [intros _ [ti ?]; done | intros _; by eexists].
  - split; [|split].
    + split; done.
    + split; [done | intros _; by eexists].
    + split; [intros [e ?]; done | intros Hno; exfalso; apply Hno; by eexists].
Qed.

Lemma first_Some (s0 sz lo hi : Z) :
  first s0 = Some (sz, lo, hi) → 0xC2 ≤ s0 ∧ 0x80 ≤ lo.
Proof.
  unfold first.
  repeat match goal with
         | |- context [if ?b then _ else _] => destruct b eqn:?
         end; intros [= <- <- <-]; lia.
Qed.

Lemma outside_false (lo hi b : Z) : outside lo hi b = false → lo ≤ b ≤ hi.
Proof. unfold outside. rewrite orb_false_iff, !Z.ltb_ge. lia. Qed.

(** A byte below 0x80 is never part of a multi-byte sequence: wherever it
    stands in the string, the loop yields it as a rune of its own. *)
Lemma ascii_byte_is_rune (s : string) (a : ascii) :
  In a (list_ascii_of_string s) → byteval a < 0x80 → In (byteval a) (runes s).
Proof.
  intros Hin Ha. remember (String.length s) as n eqn:Hn.
  assert (String.length s ≤ n)%nat as Hlen by lia. clear Hn.
  revert s Hin Hlen. induction n as [|n IH]; intros s Hin Hlen.
  { destruct s; simpl in *; [done | lia]. }
  destruct s as [|a0 t0]; [done|].
  cbn [list_ascii_of_string] in Hin. cbn [String.length] in Hlen.
  assert (In a (list_ascii_of_string t0) → In (byteval a) (runes t0)) as IH0
    by (intros ?; apply IH; [done | lia]).
  cbn [runes].
  destruct (first (byteval a0)) as [[[sz lo] hi]|] eqn:Hfirst.
  - apply first_Some in Hfirst as [Hs0 Hlo].
    destruct Hin as [-> | Hin]; [lia|].
    destruct t0 as [|a1 t1]; [done|].
    destruct (outside lo hi (byteval a1)) eqn:Ho1; [right; by apply IH0|].
    apply outside_false in Ho1.
    cbn [list_ascii_of_string] in Hin. cbn [String.length] in Hlen.
    destruct Hin as [-> | Hin]; [lia|].
    assert (In (byteval a) (runes t1)) as IH1 by (apply IH; [done | lia]).
    destruct (sz <=? 2); [by right|].
    destruct t1 as [|a2 t2]; [done|].
    destruct (outside 128 191 (byteval a2)) eqn:Ho2;
      [right; apply IH0; right; done|].
    apply outside_false in Ho2.
    cbn [list_ascii_of_string] in Hin. cbn [String.length] in Hlen.
    destruct Hin as [-> | Hin]; [lia|].
    assert (In (byteval a) (runes t2)) as IH2 by (apply IH; [done | lia]).
    destruct (sz <=? 3); [by right|].
    destruct t2 as [|a3 t3]; [done|].
    destruct (outside 128 191 (byteval a3)) eqn:Ho3;
      [right; apply IH0; right; right; done|].
    apply outside_false in Ho3.
    cbn [list_ascii_of_string] in Hin. cbn [String.length] in Hlen.
    destruct Hin as [-> | Hin]; [lia|].
    right. apply IH; [done | lia].
  - destruct Hin as [-> | Hin].
    + left. apply Z.ltb_lt in Ha. by rewrite Ha.
    + right. by apply IH0.
Qed.

(** So a name with one of the six ASCII whitespace bytes anywhere in it is
    rejected. *)
Lemma NewTaskInfo_ascii_space (quote : string → string) (name description : string)
    (params : list (option TaskInfoParam)) (a : ascii) :
  In a (list_ascii_of_string name) →
  In a [" "; "009"; "010"; "011"; "012"; "013"]%char →
  NewTaskInfo quote name description params = Err (whitespaceError quote name).
Proof.
  intros Hin Hsp.
  assert (hasSpace name = true) as Hspace.
  { apply hasSpace_spec, Exists_exists. exists (byteval a). split.
    - apply list_elem_of_In, ascii_byte_is_rune; [done|].
      simpl in Hsp. by repeat destruct Hsp as [<- | Hsp].
    - simpl in Hsp. by repeat destruct Hsp as [<- | Hsp]. }
  unfold NewTaskInfo. by rewrite Hspace.
Qed.

(** *** Examples *)

(** Go's [%q] on a string without quotes, backslashes or control bytes. *)
Definition exampleQuote (s : string) : string := String "034" (s +:+ String "034" "").

Example NewTaskInfo_plain :
  NewTaskInfo exampleQuote "publish" "Publish products"
    [Some (TaskInfoCommand ["publish"]); None; Some (TaskInfoCommand ["dist"; "publish"])]
  = Ok {| NameVar := "publish"; DescriptionVar := "Publish products";
          CommandVar := ["dist"; "publish"];
          GlobalFlagOptionsVar := None; VerifyOptionsVar := None |}.
Proof. reflexivity. Qed.

Example NewTaskInfo_space :
  NewTaskInfo exampleQuote "my task" "" []
  = Err (errorString ("task name cannot contain whitespace: " +:+ exampleQuote "my task")).
Proof. reflexivity. Qed.

(** U+00A0 (bytes C2 A0) and U+3000 (bytes E3 80 80) are whitespace. *)
Example NewTaskInfo_nbsp :
  hasSpace (String "a" (String "194" (String "160" "b"))) = true ∧
  hasSpace (String "227" (String "128" (String "128" ""))) = true.
Proof. split; reflexivity. Qed.

(** A stray byte A0 is no well-formed sequence: the loop sees U+FFFD. *)
Example NewTaskInfo_stray_byte :
  runes (String "a" (String "160" "b")) = [0x61; RuneError; 0x62] ∧
  hasSpace (String "a" (String "160" "b")) = false.
Proof. split; reflexivity. Qed.

(** A launcher environment to run the definitions in: [path.Dir] and
    [path.Join] on clean slash-separated paths, the config directory at
    [godel/config] under the project, and a child process whose outcome is
    given. *)
Fixpoint beforeLastSlash (p : string) : option string :=
  match p with
  | EmptyString => None
  | String c rest =>
      match beforeLastSlash rest with
      | Some d => Some (String c d)
      | None => if Ascii.eqb c "/" then Some "" else None
      end
  end.

Definition exampleDir (p : string) : string :=
  match beforeLastSlash p with
  | Some EmptyString => "/"
  | Some d => d
  | None => "."
  end.

Definition exampleJoin (dir name : string) : string := dir +:+ "/" +:+ name.

Definition exampleConfigDirPath (projectDir : string) : result string :=
  Ok (exampleJoin projectDir "godel/config").

Definition exampleTaskInfo : taskInfoImpl :=
  {| NameVar := "publish"; DescriptionVar := "Publish products";
     CommandVar := ["publish"];
     GlobalFlagOptionsVar :=
       Some {| DebugFlagVar := "--debug"; ProjectDirFlagVar := "--project-dir";
               GodelConfigFlagVar := "--godel-config"; ConfigFlagVar := "--config" |};
     VerifyOptionsVar := None |}.

Definition exampleGlobal : GlobalConfig :=
  {| Executable := "/proj/godelw"; Wrapper := "/proj/godelw"; Debug := true;
     TaskName := "publish"; TaskArgs := ["--dry-run"; "my product"] |}.

Definition exampleCmdArgs (ti : taskInfoImpl) (cfgFileName : string)
    (global : GlobalConfig) : result (list string) :=
  cmdArgs exampleDir exampleJoin exampleConfigDirPath "godel.yml"
          ti (toTask ti "/plugins/dist-plugin" cfgFileName) global.

Example cmdArgs_full :
  exampleCmdArgs exampleTaskInfo "dist.yml" exampleGlobal
  = Ok ["--debug"; "--project-dir"; "/proj";
        "--godel-config"; "/proj/godel/config/godel.yml";
        "--config"; "/proj/godel/config/dist.yml";
        "publish"; "--dry-run"; "my product"].
Proof. reflexivity. Qed.

Example cmdArgs_no_wrapper :
  exampleCmdArgs exampleTaskInfo "dist.yml"
    {| Executable := "dist-plugin"; Wrapper := ""; Debug := true;
       TaskName := "publish"; TaskArgs := ["--dry-run"] |}
  = Ok ["--debug"; "publish"; "--dry-run"].
Proof. reflexivity. Qed.

(** A task without a configuration file gets no plugin-config pair, although
    its descriptor accepts the flag. *)
Example cmdArgs_no_config_file :
  exampleCmdArgs exampleTaskInfo "" exampleGlobal
  = Ok ["--debug"; "--project-dir"; "/proj";
        "--godel-config"; "/proj/godel/config/godel.yml";
        "publish"; "--dry-run"; "my product"].
Proof. reflexivity. Qed.

(** The claim as stated fails there: no choice of config directory makes the
    vector of the claim, which has a [--config] pair, the one the code builds. *)
Lemma cmdArgs_differs_from_claim :
  ¬ ∃ cfgDir,
      exampleCmdArgs exampleTaskInfo "" exampleGlobal
      = Ok (claimed_argv exampleDir exampleJoin "godel.yml" exampleTaskInfo
              (toTask exampleTaskInfo "/plugins/dist-plugin" "") exampleGlobal cfgDir).
Proof.
  intros [cfgDir Heq]. vm_compute in Heq. discriminate Heq.
Qed.

Lemma cmdArgs_shape_witness :
  exampleCmdArgs exampleTaskInfo "dist.yml" exampleGlobal
  = Ok ["--debug"; "--project-dir"; "/proj";
        "--godel-config"; "/proj/godel/config/godel.yml";
        "--config"; "/proj/godel/config/dist.yml";
        "publish"; "--dry-run"; "my product"] ∧
  ((∃ cfgDir,
      ["--debug"; "--project-dir"; "/proj";
       "--godel-config"; "/proj/godel/config/godel.yml";
       "--config"; "/proj/godel/config/dist.yml";
       "publish"; "--dry-run"; "my product"]
      = amended_argv exampleDir exampleJoin "godel.yml" exampleTaskInfo
          (toTask exampleTaskInfo "/plugins/dist-plugin" "dist.yml") exampleGlobal cfgDir ∧
      (needsConfigDir (toTask exampleTaskInfo "/plugins/dist-plugin" "dist.yml")
                      exampleGlobal = true →
       exampleConfigDirPath (exampleDir (Wrapper exampleGlobal)) = Ok cfgDir)) ∧
   (Wrapper exampleGlobal = "" →
    ["--debug"; "--project-dir"; "/proj";
     "--godel-config"; "/proj/godel/config/godel.yml";
     "--config"; "/proj/godel/config/dist.yml";
     "publish"; "--dry-run"; "my product"]
    = debugArgs (toTask exampleTaskInfo "/plugins/dist-plugin" "dist.yml") exampleGlobal
      ++ CommandVar exampleTaskInfo ++ TaskArgs exampleGlobal)).
Proof.
  split; [reflexivity|].
  apply (cmdArgs_shape exampleDir exampleJoin exampleConfigDirPath "godel.yml"
           exampleTaskInfo "/plugins/dist-plugin" "dist.yml" exampleGlobal).
  reflexivity.
Defined.

(** Two children: one that runs and exits with status 1, one whose executable
    does not exist. *)
Definition exampleRunExit (path : string) (args : list string) : option error :=
  Some (ExitError 1).

Definition exampleRunNotFound (path : string) (args : list string) : option error :=
  Some (errorString ("fork/exec " +:+ path +:+ ": no such file or directory")).

Definition exampleRunImpl (cmdRun : string → list string → option error) : option error :=
  RunImpl exampleDir exampleJoin exampleConfigDirPath "godel.yml" cmdRun
          exampleTaskInfo "/plugins/dist-plugin"
          (toTask exampleTaskInfo "/plugins/dist-plugin" "dist.yml") exampleGlobal.

Example RunImpl_exit_status : exampleRunImpl exampleRunExit = Some (errorString "").
Proof. reflexivity. Qed.

Example RunImpl_not_found :
  option_map Error (exampleRunImpl exampleRunNotFound)
  = Some "plugin execution failed: fork/exec /plugins/dist-plugin: no such file or directory".
Proof. reflexivity. Qed.

Lemma RunImpl_failure_witness :
  (∃ failure, exampleRunImpl exampleRunExit = Some failure ∧
              failure = errorString "" ∧ Error failure = "") ∧
  (∃ failure, exampleRunImpl exampleRunNotFound = Some failure ∧
              failure = Wrapf (errorString "fork/exec /plugins/dist-plugin: no such file or directory")
                              "plugin execution failed" ∧
              Error failure = "plugin execution failed: fork/exec /plugins/dist-plugin: no such file or directory" ∧
              causes failure = [failure; errorString "fork/exec /plugins/dist-plugin: no such file or directory"]).
Proof.
  split.
  - apply (RunImpl_failure exampleDir exampleJoin exampleConfigDirPath "godel.yml"
             exampleRunExit exampleTaskInfo "/plugins/dist-plugin"
             (toTask exampleTaskInfo "/plugins/dist-plugin" "dist.yml") exampleGlobal
             ["--debug"; "--project-dir"; "/proj";
              "--godel-config"; "/proj/godel/config/godel.yml";
              "--config"; "/proj/godel/config/dist.yml";
              "publish"; "--dry-run"; "my product"]
             (ExitError 1)); reflexivity.
  - apply (RunImpl_failure exampleDir exampleJoin exampleConfigDirPath "godel.yml"
             exampleRunNotFound exampleTaskInfo "/plugins/dist-plugin"
             (toTask exampleTaskInfo "/plugins/dist-plugin" "dist.yml") exampleGlobal
             ["--debug"; "--project-dir"; "/proj";
              "--godel-config"; "/proj/godel/config/godel.yml";
              "--config"; "/proj/godel/config/dist.yml";
              "publish"; "--dry-run"; "my product"]
             (errorString "fork/exec /plugins/dist-plugin: no such file or directory"));
      reflexivity.
Defined.

End Pluginapi.

(** ** builtintasks: the legacy configuration upgrade *)
Module Migration.

(** *** Strings *)

(** [sort.Strings] orders by [<] on strings: bytewise lexicographic. *)
Definition string_le (s1 s2 : string) : Prop := String.leb s1 s2 = true.

#[global] Instance string_le_dec (s1 s2 : string) : Decision (string_le s1 s2).
Proof. unfold string_le. apply _. Defined.

Definition sortStrings (l : list string) : list string := merge_sort string_le l.

(** [strings.HasSuffix]. *)
Fixpoint HasSuffix (s suffix : string) : bool :=
  String.eqb s suffix
  || match s with
     | EmptyString => false
     | String _ rest => HasSuffix rest suffix
     end.

(** [strings.Join]. *)
Fixpoint Join (elems : list string) (sep : string) : string :=
  match elems with
  | [] => ""
  | [s] => s
  | s :: rest => s +:+ sep +:+ Join rest sep
  end.

(** The [%v] verb on a [[]string]. *)
Definition fmtStrings (l : list string) : string := "[" +:+ Join l " " +:+ "]".

(** *** Configuration values *)

(** [matcher.NamesPathsCfg]. *)
Record NamesPathsCfg : Type := {
  Names : list string;
  Paths : list string
}.

(** [config.GodelConfig]: the excludes, and the settings the upgrade does not
    touch. *)
Record GodelConfig (Other : Type) : Type := {
  Exclude : NamesPathsCfg;
  OtherSettings : Other
}.
Arguments Exclude {Other} _.
Arguments OtherSettings {Other} _.

(** *** The config directory and the output

    The directory maps a file name to what is there.  Every path the task
    touches is [path.Join(cfgDirPath, name)] for a file name, which stands
    for the entry [name]. *)
Inductive node : Type :=
  | RegularFile (readable : bool) (content : string)
  | Directory.

Definition IsDir (n : node) : bool :=
  match n with
  | Directory => true
  | RegularFile _ _ => false
  end.

(** What the task prints, as the calls of the printing helpers (which are
    declared outside the file at hand) in order. *)
Inductive line : Type :=
  | Println (dryRun : bool) (msg : string)
  | UpgradedConfig (cfgFile content : string) (dryRun printContent : bool)
  | BackedUp (src dst : string) (dryRun : bool).

Record world : Type := {
  files : gmap string node;
  stdout : list line
}.

Definition setFiles (w : world) (f : gmap string node) : world :=
  {| files := f; stdout := stdout w |}.

(** *** What the task calls and the file at hand does not define

    The YAML codecs, the naming of backups and the formatting of a failure. *)
Class External : Type := {
  OtherConfig : Type;
  MapItem : Type;
  (** [yaml.MapItem{Key: "legacy-config", Value: true}] *)
  legacyConfigItem : MapItem;
  (** [yaml.UnmarshalStrict] into a [matcher.NamesPathsCfg] *)
  unmarshalExclude : string → result NamesPathsCfg;
  (** the decoding and encoding of [godel.yml] *)
  unmarshalGodelConfig : string → result (GodelConfig OtherConfig);
  marshalGodelConfig : GodelConfig OtherConfig → result string;
  (** [yaml.Unmarshal] into and [yaml.Marshal] of a [yaml.MapSlice] *)
  unmarshalMapSlice : string → result (list MapItem);
  marshalMapSlice : list MapItem → result string;
  (** the name a file is moved to when it is backed up, given the names in
      use *)
  backupName : string → gset string → string;
  (** [upgradeError(projectDir, path.Join(cfgDirPath, name), err)] *)
  upgradeError : string → error → string
}.

(** [godellauncher.UpgradeConfigTask].  [Run] is the plugin's transform of the
    legacy bytes. *)
Record UpgradeConfigTask : Type := {
  ID : string;
  ConfigFile : string;
  LegacyConfigFile : string;
  Run : string → result string
}.

(** *** Effects: the world is threaded, an error ends the function *)
Definition M (A : Type) : Type := world → result A * world.

Definition ret {A} (x : A) : M A := λ w, (Ok x, w).

Definition bind {A B} (m : M A) (k : A → M B) : M B :=
  λ w, match m w with
       | (Ok x, w') => k x w'
       | (Err e, w') => (Err e, w')
       end.

Definition lift {A} (r : result A) : M A := λ w, (r, w).

(** [if err != nil { return errors.Wrapf(err, msg) }] *)
Definition wrapf {A} (msg : string) (m : M A) : M A :=
  λ w, match m w with
       | (Err e, w') => (Err (Wrapf e msg), w')
       | r => r
       end.

Notation "'let*' x ':=' m 'in' k" := (bind m (λ x, k))
  (at level 10, x name, m at level 100, k at level 200, only parsing).

Definition print (l : line) : M unit :=
  λ w, (Ok tt, {| files := files w; stdout := stdout w ++ [l] |}).

(** [os.Stat] followed by [os.IsNotExist]: is there an entry of that name? *)
Definition Stat (name : string) : M bool :=
  λ w, (Ok (bool_decide (is_Some (files w !! name))), w).

Definition ReadFile (name : string) : M string :=
  λ w, match files w !! name with
       | Some (RegularFile true content) => (Ok content, w)
       | Some (RegularFile false _) => (Err (errorString "permission denied"), w)
       | Some Directory => (Err (errorString "is a directory"), w)
       | None => (Err (errorString "no such file or directory"), w)
       end.

Definition WriteFile (name content : string) : M unit :=
  λ w, match files w !! name with
       | Some Directory => (Err (errorString "is a directory"), w)
       | Some (RegularFile readable _) =>
           (Ok tt, setFiles w (<[name := RegularFile readable content]> (files w)))
       | None => (Ok tt, setFiles w (<[name := RegularFile true content]> (files w)))
       end.

Section Upgrade.

Context `{External}.

(** Modelled from the spec: [backupConfigFile] is not in the files at hand.
    It moves a config file out of the way before it is superseded: nothing
    happens, and it is no error, if the file does not exist; the destination
    is a name chosen not to collide; under dry-run the directory is left
    alone and the action is still logged. *)
Definition backupConfigFile (name : string) (dryRun : bool) : M unit :=
  λ w, match files w !! name with
       | None => (Ok tt, w)
       | Some n =>
           let dst := backupName name (dom (files w)) in
           let w := {| files := files w; stdout := stdout w ++ [BackedUp name dst dryRun] |} in
           if dryRun then (Ok tt, w)
           else (Ok tt, setFiles w (<[dst := n]> (delete name (files w))))
       end.

(** [dryRunPrintln] and [printUpgradedConfig]: the call is recorded. *)
Definition dryRunPrintln (dryRun : bool) (msg : string) : M unit :=
  print (Println dryRun msg).

Definition printUpgradedConfig (cfgFile content : string) (dryRun printContent : bool)
  : M unit :=
  print (UpgradedConfig cfgFile content dryRun printContent).

(** Modelled from the spec: [config.ReadGodelConfigFromFile] is not in the
    files at hand; it reads the central descriptor file and decodes it. *)
Definition ReadGodelConfigFromFile (name : string) : M (GodelConfig OtherConfig) :=
  let* bytes := ReadFile name in
  lift (unmarshalGodelConfig bytes).

(** The two loops of the exclude upgrader over the legacy names and paths;
    the state is the config being edited and [modified]. *)
Definition addLegacyName (existingNames : gset string)
    (st : GodelConfig OtherConfig * bool) (legacyName : string)
  : GodelConfig OtherConfig * bool :=
  if bool_decide (legacyName ∈ existingNames) then st
  else
    ({| Exclude := {| Names := Names (Exclude (fst st)) ++ [legacyName];
                      Paths := Paths (Exclude (fst st)) |};
        OtherSettings := OtherSettings (fst st) |}, true).

Definition addLegacyPath (existingPaths : gset string)
    (st : GodelConfig OtherConfig * bool) (legacyPath : string)
  : GodelConfig OtherConfig * bool :=
  if bool_decide (legacyPath ∈ existingPaths) then st
  else
    ({| Exclude := {| Names := Paths (Exclude (fst st)) ++ [legacyPath];
                      Paths := Paths (Exclude (fst st)) |};
        OtherSettings := OtherSettings (fst st) |}, true).

Definition mergeExcludes (excludeCfg : NamesPathsCfg)
    (currentGodelConfig : GodelConfig OtherConfig) : GodelConfig OtherConfig * bool :=
  let existingNames : gset string := list_to_set (Names (Exclude currentGodelConfig)) in
  let existingPaths : gset string := list_to_set (Paths (Exclude currentGodelConfig)) in
  let st := foldl (addLegacyName existingNames) (currentGodelConfig, false)
                  (Names excludeCfg) in
  foldl (addLegacyPath existingPaths) st (Paths excludeCfg).

(** The merge in the words of the claim: a new legacy path goes to the paths
    list. *)
Definition addLegacyPath_claimed (existingPaths : gset string)
    (st : GodelConfig OtherConfig * bool) (legacyPath : string)
  : GodelConfig OtherConfig * bool :=
  if bool_decide (legacyPath ∈ existingPaths) then st
  else
    ({| Exclude := {| Names := Names (Exclude (fst st));
                      Paths := Paths (Exclude (fst st)) ++ [legacyPath] |};
        OtherSettings := OtherSettings (fst st) |}, true).

Definition mergeExcludes_claimed (excludeCfg : NamesPathsCfg)
    (currentGodelConfig : GodelConfig OtherConfig) : GodelConfig OtherConfig * bool :=
  let existingNames : gset string := list_to_set (Names (Exclude currentGodelConfig)) in
  let existingPaths : gset string := list_to_set (Paths (Exclude currentGodelConfig)) in
  let st := foldl (addLegacyName existingNames) (currentGodelConfig, false)
                  (Names excludeCfg) in
  foldl (addLegacyPath_claimed existingPaths) st (Paths excludeCfg).

(** The [upgradeConfigFn] of the upgrader for [exclude.yml]. *)
Definition excludeUpgradeConfigFn (dryRun printContent : bool) : M unit :=
  let* present := Stat "exclude.yml" in
  if negb present then ret tt
  else
    let* legacyConfigBytes :=
      wrapf "failed to read legacy configuration file" (ReadFile "exclude.yml") in
    let* excludeCfg :=
      wrapf "failed to unmarshal legacy exclude configuration"
            (lift (unmarshalExclude legacyConfigBytes)) in
    let* currentGodelConfig :=
      wrapf "failed to read godel configuration" (ReadGodelConfigFromFile "godel.yml") in
    let merged := mergeExcludes excludeCfg currentGodelConfig in
    let* _ :=
      wrapf "failed to back up legacy configuration file"
            (backupConfigFile "exclude.yml" dryRun) in
    if negb (snd merged) then ret tt
    else
      let* upgradedCfgBytes :=
        wrapf "failed to marshal upgraded godel configuration"
              (lift (marshalGodelConfig (fst merged))) in
      let* _ :=
        if negb dryRun
        then wrapf "failed to write upgraded configuration"
                   (WriteFile "godel.yml" upgradedCfgBytes)
        else ret tt in
      printUpgradedConfig "godel.yml" upgradedCfgBytes dryRun printContent.

Record hardCodedLegacyUpgraderImpl : Type := {
  fileName : string;
  upgradeConfigFn : bool → bool → M unit
}.

Definition configFileName (u : hardCodedLegacyUpgraderImpl) : string := fileName u.

Definition upgradeConfig (u : hardCodedLegacyUpgraderImpl) (dryRun printContent : bool)
  : M unit :=
  upgradeConfigFn u dryRun printContent.

Definition hardCodedLegacyUpgraders : list hardCodedLegacyUpgraderImpl :=
  [ {| fileName := "exclude.yml"; upgradeConfigFn := excludeUpgradeConfigFn |} ].

(** [ioutil.ReadDir] lists the entries sorted by name; directories are
    skipped, and so are names that do not end in [.yml]. *)
Definition dirYMLFiles (w : world) : list string :=
  filter (λ name, HasSuffix name ".yml" = true)
         (sortStrings (fst <$> filter (λ entry, IsDir (snd entry) = false)
                                       (map_to_list (files w)))).

Definition upgradeLegacyConfig (upgradeTask : UpgradeConfigTask)
    (dryRun printContent : bool) : M unit :=
  let* present := Stat (LegacyConfigFile upgradeTask) in
  if negb present then ret tt
  else
    let* legacyConfigBytes :=
      wrapf "failed to read legacy configuration file"
            (ReadFile (LegacyConfigFile upgradeTask)) in
    let* ymlConfig :=
      wrapf "failed to unmarshal YAML configuration"
            (lift (unmarshalMapSlice legacyConfigBytes)) in
    let ymlConfig := [legacyConfigItem] ++ ymlConfig in
    let* ymlCfgBytes := wrapf "failed to marshal YAML" (lift (marshalMapSlice ymlConfig)) in
    let* upgradedCfgBytes :=
      wrapf "failed to upgrade configuration" (lift (Run upgradeTask ymlCfgBytes)) in
    let* _ :=
      wrapf "failed to back up legacy configuration file"
            (backupConfigFile (LegacyConfigFile upgradeTask) dryRun) in
    let* _ :=
      wrapf "failed to back up existing configuration file"
            (backupConfigFile (ConfigFile upgradeTask) dryRun) in
    if String.eqb upgradedCfgBytes "" then ret tt
    else
      let* _ :=
        if negb dryRun
        then wrapf "failed to write upgraded configuration"
                   (WriteFile (ConfigFile upgradeTask) upgradedCfgBytes)
        else ret tt in
      printUpgradedConfig (ConfigFile upgradeTask) upgradedCfgBytes dryRun printContent.

Definition unhandledWarning (unknownNonEmptyFiles : list string) : string :=
  "WARNING: The following configuration file(s) were non-empty and had no known upgraders for legacy configuration: "
  +:+ fmtStrings unknownNonEmptyFiles.

Definition unhandledAdvice : string :=
  "         If these configuration file(s) are for plugins, add the plugins to the configuration and re-run the upgrade-legacy-config task.".

(** The loop of [processUnhandledYMLFiles]; the accumulator is
    [unknownNonEmptyFiles]. *)
Fixpoint unknownNonEmpty (unknownYMLFiles : list string) (dryRun : bool)
    (unknownNonEmptyFiles : list string) : M (list string) :=
  match unknownYMLFiles with
  | [] => ret unknownNonEmptyFiles
  | currUnknownFile :: rest =>
      let* bytes :=
        wrapf "failed to read configuration file" (ReadFile currUnknownFile) in
      if String.eqb bytes "" then
        let* _ := backupConfigFile currUnknownFile dryRun in
        unknownNonEmpty rest dryRun unknownNonEmptyFiles
      else unknownNonEmpty rest dryRun (unknownNonEmptyFiles ++ [currUnknownFile])
  end.

Definition processUnhandledYMLFiles (unknownYMLFiles : list string) (dryRun : bool)
  : M unit :=
  if Nat.eqb (length unknownYMLFiles) 0 then ret tt
  else
    let* unknownNonEmptyFiles := unknownNonEmpty unknownYMLFiles dryRun [] in
    if Nat.eqb (length unknownNonEmptyFiles) 0 then ret tt
    else
      let* _ := dryRunPrintln dryRun (unhandledWarning unknownNonEmptyFiles) in
      dryRunPrintln dryRun unhandledAdvice.

(** The local variables of [RunE] that outlive the loops. *)
Record locals : Type := {
  knownConfigFiles : gset string;
  failedUpgrades : list string
}.

Definition upgradeTasksMap (upgradeTasks : list UpgradeConfigTask)
  : gmap string UpgradeConfigTask :=
  foldl (λ m upgradeTask, <[ID upgradeTask := upgradeTask]> m) ∅ upgradeTasks.

(** One round of the loop over [hardCodedLegacyUpgraders]. *)
Definition runHardCoded (dryRun printContent : bool) (st : locals * world)
    (currUpgrader : hardCodedLegacyUpgraderImpl) : locals * world :=
  let r := upgradeConfig currUpgrader dryRun printContent (snd st) in
  ({| knownConfigFiles := {[configFileName currUpgrader]} ∪ knownConfigFiles (fst st);
      failedUpgrades :=
        match fst r with
        | Err err =>
            failedUpgrades (fst st) ++ [upgradeError (configFileName currUpgrader) err]
        | Ok _ => failedUpgrades (fst st)
        end |},
   snd r).

(** One round of the first loop over [upgradeTasks]; the state is
    [knownConfigFiles] and [legacyConfigUpgraderIDs]. *)
Definition claimConfigFile (st : gset string * list string)
    (upgradeTask : UpgradeConfigTask) : gset string * list string :=
  ({[ConfigFile upgradeTask]} ∪ fst st,
   if String.eqb (LegacyConfigFile upgradeTask) "" then snd st
   else snd st ++ [ID upgradeTask]).

(** One round of the loop over the sorted [legacyConfigUpgraderIDs]. *)
Definition runLegacy (tasksMap : gmap string UpgradeConfigTask)
    (dryRun printContent : bool) (st : locals * world) (k : string) : locals * world :=
  match tasksMap !! k with
  | None => st
  | Some upgradeTask =>
      let r := upgradeLegacyConfig upgradeTask dryRun printContent (snd st) in
      ({| knownConfigFiles :=
            {[LegacyConfigFile upgradeTask]} ∪ knownConfigFiles (fst st);
          failedUpgrades :=
            match fst r with
            | Err err =>
                failedUpgrades (fst st) ++ [upgradeError (ConfigFile upgradeTask) err]
            | Ok _ => failedUpgrades (fst st)
            end |},
       snd r)
  end.

Definition legacyConfigUpgraderIDs (upgradeTasks : list UpgradeConfigTask)
    (known : gset string) : gset string * list string :=
  foldl claimConfigFile (known, []) upgradeTasks.

(** [RunE] up to and including the two upgrade passes. *)
Definition upgradePasses (upgradeTasks : list UpgradeConfigTask)
    (dryRun printContent : bool) (w : world) : locals * world :=
  let tasksMap := upgradeTasksMap upgradeTasks in
  let hard :=
    foldl (runHardCoded dryRun printContent)
          ({| knownConfigFiles := ∅; failedUpgrades := [] |}, w)
          hardCodedLegacyUpgraders in
  let claimed := legacyConfigUpgraderIDs upgradeTasks (knownConfigFiles (fst hard)) in
  foldl (runLegacy tasksMap dryRun printContent)
        ({| knownConfigFiles := fst claimed;
            failedUpgrades := failedUpgrades (fst hard) |}, snd hard)
        (sortStrings (snd claimed)).

Definition unhandledYMLFiles (originalYMLFiles : list string) (known : gset string)
  : list string :=
  filter (λ k, k ∉ known) originalYMLFiles.

(** The end of [RunE]: the report of the failed upgrades, one line each
    after a tab. *)
Definition printFailures (failed : list string) (dryRun : bool) : M unit :=
  foldl (λ m upgrade, let* _ := m in dryRunPrintln dryRun (String "009" upgrade))
        (ret tt) failed.

Definition reportFailures (failed : list string) (dryRun : bool) : M unit :=
  if Nat.eqb (length failed) 0 then ret tt
  else
    let* _ := dryRunPrintln dryRun "Failed to upgrade configuration:" in
    let* _ := printFailures failed dryRun in
    lift (Err (errorString "")).

(** The [RunE] of the task, from the listing of the config directory on, with
    the local variables at its end. *)
Definition RunE_locals (upgradeTasks : list UpgradeConfigTask)
    (dryRun printContent : bool) (w : world) : locals * (result unit * world) :=
  let originalYMLFiles := dirYMLFiles w in
  let st := upgradePasses upgradeTasks dryRun printContent w in
  (fst st,
   (let* _ :=
      processUnhandledYMLFiles
        (unhandledYMLFiles originalYMLFiles (knownConfigFiles (fst st))) dryRun in
    reportFailures (failedUpgrades (fst st)) dryRun) (snd st)).

Definition RunE (upgradeTasks : list UpgradeConfigTask) (dryRun printContent : bool)
  : M unit :=
  λ w, snd (RunE_locals upgradeTasks dryRun printContent w).

(** No two different tasks of the list share an ID. *)
Definition idsIdentifyTasks (tasks : list UpgradeConfigTask) : Prop :=
  ∀ t1 t2, t1 ∈ tasks → t2 ∈ tasks → ID t1 = ID t2 → t1 = t2.

(** The task declares a legacy configuration file. *)
Definition hasLegacy (t : UpgradeConfigTask) : Prop := LegacyConfigFile t ≠ "".


(** The entry is a readable file without content. *)
Definition emptyIn (w : world) (name : string) : bool :=
  match files w !! name with
  | Some (RegularFile true content) => String.eqb content ""
  | _ => false
  end.

(** The files of a list that are empty, and those that are not. *)
Definition emptyFiles (w : world) (names : list string) : list string :=
  filter (λ name, emptyIn w name = true) names.

Definition nonEmptyFiles (w : world) (names : list string) : list string :=
  filter (λ name, emptyIn w name = false) names.

(** Backing up the files of a list, one after the other. *)
Definition backupAll (names : list string) (dryRun : bool) (w : world) : world :=
  foldl (λ w name, snd (backupConfigFile name dryRun w)) w names.


(** The backup names are fresh: never a name in use. *)
Definition backupNamesFresh : Prop := ∀ name (used : gset string), backupName name used ∉ used.

(** The entry is a file that can be read. *)
Definition readableIn (w : world) (name : string) : Prop :=
  ∃ content, files w !! name = Some (RegularFile true content).


(** *** The order of [sort.Strings] *)

Lemma compare_not_Gt_trans (s1 s2 s3 : string) :
  String.compare s1 s2 ≠ Gt → String.compare s2 s3 ≠ Gt → String.compare s1 s3 ≠ Gt.
Proof.
  revert s2 s3. induction s1 as [|a s1 IH]; intros [|b s2] [|c s3]; simpl; try congruence.
  unfold Ascii.compare.
  destruct (N.compare_spec (N_of_ascii a) (N_of_ascii b)) as [Hab|Hab|Hab];
    destruct (N.compare_spec (N_of_ascii b) (N_of_ascii c)) as [Hbc|Hbc|Hbc];
    destruct (N.compare_spec (N_of_ascii a) (N_of_ascii c)) as [Hac|Hac|Hac];
    try congruence; try lia.
  apply IH.
Qed.

#[global] Instance string_le_total : Total string_le.
Proof. intros s1 s2. apply String.leb_total. Qed.

#[global] Instance string_le_antisym : AntiSymm (=) string_le.
Proof. intros s1 s2. apply String.leb_antisym. Qed.

#[global] Instance string_le_trans : Transitive string_le.
Proof.
  intros s1 s2 s3. unfold string_le, String.leb. intros H12 H23.
  pose proof (compare_not_Gt_trans s1 s2 s3) as Htrans.
  destruct (String.compare s1 s2), (String.compare s2 s3), (String.compare s1 s3);
    try done; exfalso; by apply Htrans.
Qed.

Lemma sortStrings_sorted (l : list string) : StronglySorted string_le (sortStrings l).
Proof. apply StronglySorted_merge_sort; apply _. Qed.

Lemma sortStrings_perm (l : list string) : sortStrings l ≡ₚ l.
Proof. apply merge_sort_Permutation. Qed.

(** The sorted list does not depend on the order of the input. *)
Lemma sortStrings_order_independent (l1 l2 : list string) :
  l1 ≡ₚ l2 → sortStrings l1 = sortStrings l2.
Proof.
  intros Hperm. apply (StronglySorted_unique string_le); try apply sortStrings_sorted.
  by rewrite !sortStrings_perm.
Qed.

(** *** The work lists of the plugin pass *)

Lemma upgradeTasksMap_snoc (tasks : list UpgradeConfigTask) (t : UpgradeConfigTask) :
  upgradeTasksMap (tasks ++ [t]) = <[ID t := t]> (upgradeTasksMap tasks).
Proof. unfold upgradeTasksMap. by rewrite foldl_snoc. Qed.

Lemma upgradeTasksMap_lookup_Some (tasks : list UpgradeConfigTask) (k : string)
    (t : UpgradeConfigTask) :
  upgradeTasksMap tasks !! k = Some t → t ∈ tasks ∧ ID t = k.
Proof.
  induction tasks as [|t' tasks IH] using rev_ind; [done|].
  rewrite upgradeTasksMap_snoc, lookup_insert. case_decide as Hk.
  - intros [= ->]. split; [|done]. apply elem_of_app. right. by apply list_elem_of_singleton.
  - intros [Hin <-]%IH. split; [|done]. apply elem_of_app. by left.
Qed.

Lemma upgradeTasksMap_lookup_elem (tasks : list UpgradeConfigTask) (t : UpgradeConfigTask) :
  t ∈ tasks → is_Some (upgradeTasksMap tasks !! ID t).
Proof.
  induction tasks as [|t' tasks IH] using rev_ind; [by intros ?%elem_of_nil|].
  rewrite upgradeTasksMap_snoc, lookup_insert. case_decide; [by eexists|].
  intros [Hin | ->%list_elem_of_singleton]%elem_of_app; [by apply IH | done].
Qed.

Lemma upgradeTasksMap_lookup (tasks : list UpgradeConfigTask) (k : string)
    (t : UpgradeConfigTask) :
  idsIdentifyTasks tasks →
  upgradeTasksMap tasks !! k = Some t ↔ t ∈ tasks ∧ ID t = k.
Proof.
  intros Hids. split; [apply upgradeTasksMap_lookup_Some|].
  intros [Hin <-]. destruct (upgradeTasksMap_lookup_elem tasks t Hin) as [t' Ht'].
  rewrite Ht'. f_equal.
  apply upgradeTasksMap_lookup_Some in Ht' as [Hin' Hid]. by apply Hids.
Qed.

Lemma upgradeTasksMap_order_independent (tasks1 tasks2 : list UpgradeConfigTask) :
  tasks1 ≡ₚ tasks2 → idsIdentifyTasks tasks1 →
  upgradeTasksMap tasks1 = upgradeTasksMap tasks2.
Proof.
  intros Hperm Hids.
  assert (idsIdentifyTasks tasks2) as Hids2.
  { intros t1 t2. rewrite <- !Hperm. apply Hids. }
  apply map_eq. intros k. apply option_eq. intros t.
  rewrite !upgradeTasksMap_lookup by done. by rewrite Hperm.
Qed.

Lemma claimConfigFile_fold (tasks : list UpgradeConfigTask) (known : gset string)
    (ids : list string) :
  foldl claimConfigFile (known, ids) tasks
  = (list_to_set (ConfigFile <$> tasks) ∪ known,
     ids ++ (ID <$> filter hasLegacy tasks)).
Proof.
  revert known ids. induction tasks as [|t tasks IH]; intros known ids; simpl.
  - f_equal; [by rewrite (left_id_L ∅ (∪)) | by rewrite app_nil_r].
  - unfold claimConfigFile at 2. simpl. rewrite IH. f_equal.
    { apply set_eq. intros x. rewrite !elem_of_union. tauto. }
    rewrite filter_cons. unfold hasLegacy at 1.
    destruct (String.eqb_spec (LegacyConfigFile t) "") as [Heq|Hne].
    + by rewrite decide_False by (by intros ?).
    + rewrite decide_True by done. by rewrite <- app_assoc.
Qed.

Lemma legacyConfigUpgraderIDs_eq (tasks : list UpgradeConfigTask) (known : gset string) :
  legacyConfigUpgraderIDs tasks known
  = (list_to_set (ConfigFile <$> tasks) ∪ known, ID <$> filter hasLegacy tasks).
Proof. unfold legacyConfigUpgraderIDs. by rewrite claimConfigFile_fold. Qed.

(** C4 (as amended). Two runs over the same directory, given the same tasks in
    two different orders, where no two different tasks share an ID, end with
    the same known files, the same list of failures in the same order, the
    same returned error, the same directory and the same output; the plugin
    pass handles the IDs of the tasks with a legacy file in lexicographic
    order. *)
Theorem RunE_order_independent (tasks1 tasks2 : list UpgradeConfigTask)
    (dryRun printContent : bool) (w : world) :
  tasks1 ≡ₚ tasks2 →
  idsIdentifyTasks tasks1 →
  RunE_locals tasks1 dryRun printContent w = RunE_locals tasks2 dryRun printContent w ∧
  ∃ st pending,
    upgradePasses tasks1 dryRun printContent w
    = foldl (runLegacy (upgradeTasksMap tasks1) dryRun printContent) st pending ∧
    StronglySorted string_le pending ∧
    pending ≡ₚ ID <$> filter hasLegacy tasks1.
Proof.
  intros Hperm Hids. split.
  - unfold RunE_locals, upgradePasses.
    rewrite (upgradeTasksMap_order_independent tasks1 tasks2) by done.
    rewrite !legacyConfigUpgraderIDs_eq. cbn [fst snd].
    rewrite (sortStrings_order_independent (ID <$> filter hasLegacy tasks1)
                                           (ID <$> filter hasLegacy tasks2))
      by (by rewrite Hperm).
    assert (list_to_set (ConfigFile <$> tasks1) =@{gset string}
            list_to_set (ConfigFile <$> tasks2)) as -> by (by rewrite Hperm).
    reflexivity.
  - unfold upgradePasses. rewrite legacyConfigUpgraderIDs_eq. cbn [fst snd].
    eexists _, _. split; [reflexivity|]. split.
    + apply sortStrings_sorted.
    + apply sortStrings_perm.
Qed.

(** *** Dry runs leave the directory alone *)




















(** *** What a dry run still does *)






























(** *** Unhandled files *)

Lemma sublist_fmap_fst_filter {A B} (P : A * B → Prop) `{∀ x, Decision (P x)}
    (l : list (A * B)) :
  NoDup (fst <$> l) → NoDup (fst <$> filter P l).
Proof.
  intros Hnd. apply (sublist_NoDup _ (fst <$> l)); [done|].
  apply fmap_sublist, sublist_filter.
Qed.

Lemma dirYMLFiles_NoDup (w : world) : NoDup (dirYMLFiles w).
Proof.
  unfold dirYMLFiles. apply NoDup_filter.
  rewrite sortStrings_perm.
  apply sublist_fmap_fst_filter, NoDup_fst_map_to_list.
Qed.

Lemma backupConfigFile_Ok (name : string) (dryRun : bool) (w : world) :
  fst (backupConfigFile name dryRun w) = Ok tt.
Proof. unfold backupConfigFile. by destruct (files w !! name), dryRun. Qed.

(** Backing up a file leaves the other entries in use as they are. *)
Lemma backupConfigFile_other (name other : string) (dryRun : bool) (w : world) :
  backupNamesFresh → other ≠ name → is_Some (files w !! other) →
  files (snd (backupConfigFile name dryRun w)) !! other = files w !! other.
Proof.
  intros Hfresh Hne Hother. unfold backupConfigFile.
  destruct (files w !! name) as [n|] eqn:Hname; [|done].
  destruct dryRun; [done|]. cbn [snd files setFiles].
  rewrite lookup_insert_ne, lookup_delete_ne; [done | done |].
  intros Heq. apply (Hfresh name (dom (files w))). rewrite Heq. by apply elem_of_dom.
Qed.

Lemma backupConfigFile_stdout (name : string) (dryRun : bool) (w : world) :
  is_Some (files w !! name) →
  ∃ dst, stdout (snd (backupConfigFile name dryRun w)) = stdout w ++ [BackedUp name dst dryRun].
Proof.
  intros [n Hn]. unfold backupConfigFile. rewrite Hn.
  eexists. by destruct dryRun.
Qed.

Lemma emptyIn_agree (w w0 : world) (name : string) :
  files w !! name = files w0 !! name → emptyIn w name = emptyIn w0 name.
Proof. unfold emptyIn. by intros ->. Qed.

(** The backup of the file does not fail, whatever is in the directory. *)
Definition backupSucceeds (name : string) (dryRun : bool) : Prop :=
  ∀ w, fst (backupConfigFile name dryRun w) = Ok tt.

(** The loop of [processUnhandledYMLFiles], when every file of the list can
    be read and the backups of the empty ones do not fail: the empty files
    are backed up in order, the others collected in order. *)
Lemma unknownNonEmpty_readable (w0 : world) (unknown : list string) (dryRun : bool)
    (acc : list string) (w : world) :
  backupNamesFresh →
  NoDup unknown →
  (∀ f, f ∈ unknown → readableIn w0 f ∧ files w !! f = files w0 !! f) →
  (∀ f, f ∈ unknown → emptyIn w0 f = true → backupSucceeds f dryRun) →
  ∃ lines,
    unknownNonEmpty unknown dryRun acc w
    = (Ok (acc ++ nonEmptyFiles w0 unknown),
       {| files := files (backupAll (emptyFiles w0 unknown) dryRun w);
          stdout := stdout w ++ lines |}) ∧
    stdout (backupAll (emptyFiles w0 unknown) dryRun w) = stdout w ++ lines ∧
    Forall2 (λ l f, ∃ dst, l = BackedUp f dst dryRun) lines (emptyFiles w0 unknown).
Proof.
  intros Hfresh. revert acc w.
  induction unknown as [|f unknown IH]; intros acc w Hnd Hread Hbackups.
  { exists []. simpl. rewrite !app_nil_r. split; [by destruct w|]. split; [done | constructor]. }
  apply NoDup_cons in Hnd as [Hf Hnd].
  destruct (Hread f) as [[content Hcontent] Hsame]; [by left|].
  cbn [unknownNonEmpty]. unfold bind at 1, wrapf, ReadFile.
  rewrite Hsame, Hcontent.
  unfold nonEmptyFiles, emptyFiles. rewrite !filter_cons.
  assert (emptyIn w0 f = String.eqb content "") as Hemp
    by (unfold emptyIn; by rewrite Hcontent).
  destruct (String.eqb content "") eqn:Hempty.
  - rewrite decide_False by (by rewrite Hemp). rewrite decide_True by done.
    unfold bind at 1.
    pose proof (Hbackups f ltac:(by left) Hemp w) as Hok.
    destruct (backupConfigFile_stdout f dryRun w) as [dst Hout].
    { rewrite Hsame, Hcontent. by eexists. }
    destruct (backupConfigFile f dryRun w) as [r w1] eqn:Hbackup. simpl in Hok, Hout.
    subst r.
    destruct (IH acc w1 Hnd) as (lines & Heq & Hlog & Hall).
    { intros g Hg. destruct (Hread g) as [Hg0 Hgsame]; [by right|].
      split; [done|]. rewrite <- Hgsame.
      replace w1 with (snd (backupConfigFile f dryRun w)) by (by rewrite Hbackup).
      apply backupConfigFile_other; [done | by intros -> |].
      rewrite Hgsame. destruct Hg0 as [c Hc]. rewrite Hc. by eexists. }
    { intros g Hg. apply Hbackups. by right. }
    exists (BackedUp f dst dryRun :: lines).
    cbn [backupAll foldl]. rewrite Hbackup. cbn [snd].
    fold (backupAll (filter (λ name, emptyIn w0 name = true) unknown) dryRun w1).
    unfold nonEmptyFiles, emptyFiles in Heq, Hlog.
    rewrite Heq, Hlog, Hout, <- !app_assoc. split; [done|]. split; [done|].
    constructor; [by eexists | done].
  - rewrite decide_True by done. rewrite decide_False by (by rewrite Hemp).
    destruct (IH (acc ++ [f]) w Hnd) as (lines & Heq & Hlog & Hall).
    { intros g Hg. apply Hread. by right. }
    { intros g Hg. apply Hbackups. by right. }
    exists lines. unfold nonEmptyFiles, emptyFiles in Heq, Hlog.
    rewrite Heq, <- app_assoc. done.
Qed.



(** *** The merge of the legacy excludes *)

Lemma addLegacyName_fold_Paths (existing : gset string)
    (st : GodelConfig OtherConfig * bool) (names : list string) :
  Paths (Exclude (fst (foldl (addLegacyName existing) st names)))
  = Paths (Exclude (fst st)).
Proof.
  revert st. induction names as [|n names IH]; intros st; [done|].
  simpl. rewrite IH. unfold addLegacyName. by case_bool_decide.
Qed.

Lemma addLegacyName_fold_Names (existing : gset string)
    (st : GodelConfig OtherConfig * bool) (names : list string) :
  Names (Exclude (fst (foldl (addLegacyName existing) st names)))
  = Names (Exclude (fst st)) ++ filter (λ n, n ∉ existing) names.
Proof.
  revert st. induction names as [|n names IH]; intros st; simpl.
  - by rewrite app_nil_r.
  - rewrite IH, filter_cons. unfold addLegacyName.
    case_bool_decide.
    + by rewrite decide_False by (by intros ?).
    + rewrite decide_True by done. simpl. by rewrite <- app_assoc.
Qed.

Lemma addLegacyPath_fold_Paths (existing : gset string)
    (st : GodelConfig OtherConfig * bool) (paths : list string) :
  Paths (Exclude (fst (foldl (addLegacyPath existing) st paths)))
  = Paths (Exclude (fst st)).
Proof.
  revert st. induction paths as [|p paths IH]; intros st; [done|].
  simpl. rewrite IH. unfold addLegacyPath. by case_bool_decide.
Qed.

Lemma addLegacyPath_fold_Names (existing : gset string)
    (st : GodelConfig OtherConfig * bool) (paths : list string) :
  Names (Exclude (fst (foldl (addLegacyPath existing) st paths)))
  = match last (filter (λ p, p ∉ existing) paths) with
    | Some p => Paths (Exclude (fst st)) ++ [p]
    | None => Names (Exclude (fst st))
    end.
Proof.
  induction paths as [|p paths IH] using rev_ind; [done|].
  rewrite foldl_snoc, filter_app, filter_cons, filter_nil.
  unfold addLegacyPath at 1. case_bool_decide.
  - rewrite decide_False by (by intros ?). by rewrite app_nil_r.
  - rewrite decide_True by done. rewrite last_snoc. simpl.
    by rewrite addLegacyPath_fold_Paths.
Qed.

(** The names loop does what the claim says: the legacy names that are not
    among the current names are appended to the names, as long as no legacy
    path is new. *)
Lemma mergeExcludes_names (excludeCfg : NamesPathsCfg)
    (current : GodelConfig OtherConfig) :
  filter (λ p, p ∉@{gset string} list_to_set (Paths (Exclude current))) (Paths excludeCfg) = [] →
  Exclude (fst (mergeExcludes excludeCfg current))
  = {| Names := Names (Exclude current)
                ++ filter (λ n, n ∉@{gset string} list_to_set (Names (Exclude current)))
                          (Names excludeCfg);
       Paths := Paths (Exclude current) |}.
Proof.
  intros Hnone. unfold mergeExcludes.
  pose proof (addLegacyPath_fold_Names (list_to_set (Paths (Exclude current)))
    (foldl (addLegacyName (list_to_set (Names (Exclude current)))) (current, false)
           (Names excludeCfg)) (Paths excludeCfg)) as HN.
  pose proof (addLegacyPath_fold_Paths (list_to_set (Paths (Exclude current)))
    (foldl (addLegacyName (list_to_set (Names (Exclude current)))) (current, false)
           (Names excludeCfg)) (Paths excludeCfg)) as HP.
  rewrite Hnone in HN. simpl in HN.
  rewrite addLegacyName_fold_Names in HN. rewrite addLegacyName_fold_Paths in HP.
  destruct (Exclude (fst _)) as [ns ps]. simpl in *. by subst.
Qed.

(** The paths loop does not: as soon as one legacy path is new, the names
    become the current paths followed by the last new path, and the paths
    stay as they were. *)
Lemma mergeExcludes_new_path (excludeCfg : NamesPathsCfg)
    (current : GodelConfig OtherConfig) (p : string) :
  last (filter (λ p, p ∉@{gset string} list_to_set (Paths (Exclude current)))
               (Paths excludeCfg)) = Some p →
  Exclude (fst (mergeExcludes excludeCfg current))
  = {| Names := Paths (Exclude current) ++ [p]; Paths := Paths (Exclude current) |}.
Proof.
  intros Hlast. unfold mergeExcludes.
  pose proof (addLegacyPath_fold_Names (list_to_set (Paths (Exclude current)))
    (foldl (addLegacyName (list_to_set (Names (Exclude current)))) (current, false)
           (Names excludeCfg)) (Paths excludeCfg)) as HN.
  pose proof (addLegacyPath_fold_Paths (list_to_set (Paths (Exclude current)))
    (foldl (addLegacyName (list_to_set (Names (Exclude current)))) (current, false)
           (Names excludeCfg)) (Paths excludeCfg)) as HP.
  rewrite Hlast in HN. rewrite addLegacyName_fold_Paths in HN, HP.
  destruct (Exclude (fst _)) as [ns ps]. simpl in *. by subst.
Qed.

(** *** The known files *)

Lemma runLegacy_known_mono (tasksMap : gmap string UpgradeConfigTask)
    (dryRun printContent : bool) (st : locals * world) (ids : list string) :
  knownConfigFiles (fst st)
  ⊆ knownConfigFiles (fst (foldl (runLegacy tasksMap dryRun printContent) st ids)).
Proof.
  revert st. induction ids as [|k ids IH]; intros st; [done|].
  simpl. etrans; [|apply IH]. unfold runLegacy.
  destruct (tasksMap !! k); [|done]. simpl. apply union_subseteq_r.
Qed.

(** The file of the built-in upgrader and the current file of every plugin
    task are known at the end of the passes. *)
Lemma upgradePasses_known (tasks : list UpgradeConfigTask) (dryRun printContent : bool)
    (w : world) :
  {["exclude.yml"]} ∪ list_to_set (ConfigFile <$> tasks)
  ⊆ knownConfigFiles (fst (upgradePasses tasks dryRun printContent w)).
Proof.
  unfold upgradePasses. etrans; [|apply runLegacy_known_mono].
  rewrite legacyConfigUpgraderIDs_eq. cbn [fst knownConfigFiles].
  apply union_least; [|apply union_subseteq_l].
  etrans; [|apply union_subseteq_r]. simpl. apply union_subseteq_l.
Qed.

End Upgrade.

(** *** An instance to run the task in

    A line-oriented stand-in for YAML: a document is a sequence of entries
    separated by [;], an exclude entry is [n=<name>] or [p=<path>].  A backup
    goes to [<name>.bak], made longer than every name in use if that name is
    taken. *)
Fixpoint splitOn (sep : ascii) (s : string) : list string :=
  match s with
  | EmptyString => [""]
  | String c rest =>
      if Ascii.eqb c sep then "" :: splitOn sep rest
      else
        match splitOn sep rest with
        | head :: tail => String c head :: tail
        | [] => [String c ""]
        end
  end.

Fixpoint parseExcludes (entries : list string) (cfg : NamesPathsCfg) : result NamesPathsCfg :=
  match entries with
  | [] => Ok cfg
  | EmptyString :: rest => parseExcludes rest cfg
  | String "n" (String "=" name) :: rest =>
      parseExcludes rest {| Names := Names cfg ++ [name]; Paths := Paths cfg |}
  | String "p" (String "=" path) :: rest =>
      parseExcludes rest {| Names := Names cfg; Paths := Paths cfg ++ [path] |}
  | entry :: _ => Err (errorString ("yaml: unknown entry " +:+ entry))
  end.

Definition exampleUnmarshalExclude (bytes : string) : result NamesPathsCfg :=
  parseExcludes (splitOn ";" bytes) {| Names := []; Paths := [] |}.

Definition exampleMarshalExclude (cfg : NamesPathsCfg) : string :=
  Join ((String.append "n=" <$> Names cfg) ++ (String.append "p=" <$> Paths cfg)) ";".

Definition padding (used : gset string) : string :=
  string_of_list_ascii
    (replicate (foldr (λ name n, Nat.max (String.length name) n) 0%nat (elements used))
               "~"%char).

Definition exampleBackupName (name : string) (used : gset string) : string :=
  if bool_decide (name +:+ ".bak" ∈ used) then name +:+ ".bak" +:+ padding used
  else name +:+ ".bak".

#[local] Instance exampleExternal : External := {|
  OtherConfig := unit;
  MapItem := string;
  legacyConfigItem := "legacy-config=true";
  unmarshalExclude := exampleUnmarshalExclude;
  unmarshalGodelConfig bytes :=
    match exampleUnmarshalExclude bytes with
    | Ok cfg => Ok {| Exclude := cfg; OtherSettings := tt |}
    | Err e => Err e
    end;
  marshalGodelConfig cfg := Ok (exampleMarshalExclude (Exclude cfg));
  unmarshalMapSlice bytes := Ok (splitOn ";" bytes);
  marshalMapSlice items := Ok (Join items ";");
  backupName := exampleBackupName;
  upgradeError name err := name +:+ ": " +:+ Error err
|}.

Definition exampleDirectory (entries : list (string * node)) : world :=
  {| files := list_to_map entries; stdout := [] |}.

(** The directory of the end-to-end scenario: a legacy exclude file naming
    [build] and a central descriptor without it. *)
Definition scenarioDirectory : world :=
  exampleDirectory [("exclude.yml", RegularFile true "n=build");
                    ("godel.yml", RegularFile true "n=dist")].

Definition distTask : UpgradeConfigTask :=
  {| ID := "com.palantir.distgo:dist-plugin"; ConfigFile := "dist-plugin.yml";
     LegacyConfigFile := "dist.yml"; Run := λ bytes, Ok bytes |}.

Definition checkTask : UpgradeConfigTask :=
  {| ID := "com.palantir.check:check-plugin"; ConfigFile := "check-plugin.yml";
     LegacyConfigFile := "check.yml";
     Run := λ bytes, Err (errorString "unsupported legacy configuration") |}.

Definition pluginDirectory : world :=
  exampleDirectory [("dist.yml", RegularFile true "products=a");
                    ("check.yml", RegularFile true "checks=b");
                    ("dist-plugin.yml", RegularFile true "old");
                    ("empty.yml", RegularFile true "");
                    ("notes.yml", RegularFile true "k=v");
                    ("README", RegularFile true "text");
                    ("sub.yml", Directory)].

(** Two tasks that share an ID. *)
Definition sharedA : UpgradeConfigTask :=
  {| ID := "com.palantir:plugin"; ConfigFile := "a.yml";
     LegacyConfigFile := "a-legacy.yml"; Run := λ bytes, Ok bytes |}.

Definition sharedB : UpgradeConfigTask :=
  {| ID := "com.palantir:plugin"; ConfigFile := "b.yml";
     LegacyConfigFile := "b-legacy.yml"; Run := λ bytes, Ok bytes |}.

(** A directory with a file that cannot be read. *)
Definition strayDirectory : world :=
  exampleDirectory [("notes.yml", RegularFile true "k=v");
                    ("stray.yml", RegularFile false "k=v")].

Definition knownAfter (tasks : list UpgradeConfigTask) (dryRun : bool) (w : world)
  : list string :=
  sortStrings (elements (knownConfigFiles (fst (RunE_locals tasks dryRun false w)))).

Definition filesAfter (tasks : list UpgradeConfigTask) (dryRun : bool) (w : world)
  : list (string * node) :=
  map_to_list (files (snd (snd (RunE_locals tasks dryRun false w)))).

Definition outputAfter (tasks : list UpgradeConfigTask) (dryRun : bool) (w : world)
  : list line :=
  stdout (snd (snd (RunE_locals tasks dryRun false w))).

Example dirYMLFiles_plugin :
  dirYMLFiles pluginDirectory
  = ["check.yml"; "dist-plugin.yml"; "dist.yml"; "empty.yml"; "notes.yml"].
Proof. vm_compute. reflexivity. Qed.

(** A run over the plugin directory: the check plugin's transform fails, the
    dist plugin's file is upgraded, the empty file is backed up, the other
    unclaimed file is named in the warning, and the failure is reported. *)
Example RunE_plugins :
  knownAfter [distTask; checkTask] false pluginDirectory
  = ["check-plugin.yml"; "check.yml"; "dist-plugin.yml"; "dist.yml"; "exclude.yml"] ∧
  failedUpgrades (fst (RunE_locals [distTask; checkTask] false false pluginDirectory))
  = ["check-plugin.yml: failed to upgrade configuration: unsupported legacy configuration"] ∧
  fst (RunE [distTask; checkTask] false false pluginDirectory) = Err (errorString "") ∧
  outputAfter [distTask; checkTask] false pluginDirectory
  = [BackedUp "dist.yml" "dist.yml.bak" false;
     BackedUp "dist-plugin.yml" "dist-plugin.yml.bak" false;
     UpgradedConfig "dist-plugin.yml" "legacy-config=true;products=a" false false;
     BackedUp "empty.yml" "empty.yml.bak" false;
     Println false (unhandledWarning ["notes.yml"]);
     Println false unhandledAdvice;
     Println false "Failed to upgrade configuration:";
     Println false (String "009" "check-plugin.yml: failed to upgrade configuration: unsupported legacy configuration")].
Proof. repeat split; vm_compute; reflexivity. Qed.

(** The end-to-end scenario of the specification: [build] reaches the names
    of the central descriptor, the legacy file is moved away and no failure
    is reported. *)
Example RunE_scenario :
  filesAfter [] false scenarioDirectory
  = [("godel.yml", RegularFile true "n=dist;n=build");
     ("exclude.yml.bak", RegularFile true "n=build")] ∧
  fst (RunE [] false false scenarioDirectory) = Ok tt.
Proof. split; vm_compute; reflexivity. Qed.

(** C1: at a legacy exclude file with a new path the code departs from the
    claim.  The current excludes have the name [build] and the path [dist];
    the legacy file brings the path [vendor].  The claim puts [vendor] after
    [dist] in the paths and keeps the names; the code leaves the paths alone
    and replaces the names by the paths followed by [vendor]. *)
Theorem mergeExcludes_path_lands_in_names :
  Exclude (fst (mergeExcludes
                  {| Names := []; Paths := ["vendor"] |}
                  {| Exclude := {| Names := ["build"]; Paths := ["dist"] |};
                     OtherSettings := tt |}))
  = {| Names := ["dist"; "vendor"]; Paths := ["dist"] |} ∧
  Exclude (fst (mergeExcludes_claimed
                  {| Names := []; Paths := ["vendor"] |}
                  {| Exclude := {| Names := ["build"]; Paths := ["dist"] |};
                     OtherSettings := tt |}))
  = {| Names := ["build"]; Paths := ["dist"; "vendor"] |} ∧
  filesAfter [] false
    (exampleDirectory [("exclude.yml", RegularFile true "p=vendor");
                       ("godel.yml", RegularFile true "n=build;p=dist")])
  = [("godel.yml", RegularFile true "n=dist;n=vendor;p=dist");
     ("exclude.yml.bak", RegularFile true "p=vendor")].
Proof. repeat split; vm_compute; reflexivity. Qed.

(** C2: in the end-to-end scenario, without plugin tasks, the run writes
    [godel.yml]; the name is not among the known files at the end of the
    run, and the warning about unhandled files names it. *)
Theorem RunE_writes_unknown_file :
  files scenarioDirectory !! "godel.yml" = Some (RegularFile true "n=dist") ∧
  files (snd (RunE [] false false scenarioDirectory)) !! "godel.yml"
  = Some (RegularFile true "n=dist;n=build") ∧
  ("godel.yml" ∉ knownConfigFiles (fst (RunE_locals [] false false scenarioDirectory))) ∧
  knownAfter [] false scenarioDirectory = ["exclude.yml"] ∧
  outputAfter [] false scenarioDirectory
  = [BackedUp "exclude.yml" "exclude.yml.bak" false;
     UpgradedConfig "godel.yml" "n=dist;n=build" false false;
     Println false (unhandledWarning ["godel.yml"]);
     Println false unhandledAdvice].
Proof.
  split; [vm_compute; reflexivity|]. split; [vm_compute; reflexivity|].
  split; [|split; vm_compute; reflexivity].
  intros Hin.
  assert (bool_decide ("godel.yml" ∈ knownConfigFiles
            (fst (RunE_locals [] false false scenarioDirectory))) = true) as Hb
    by (by apply bool_decide_eq_true_2).
  vm_compute in Hb. discriminate Hb.
Qed.

(** C4 as stated fails for tasks that share an ID: the two orders of the same
    two tasks end with different known files. *)
Lemma RunE_order_matters_for_shared_ID :
  [sharedA; sharedB] ≡ₚ [sharedB; sharedA] ∧
  knownConfigFiles (fst (RunE_locals [sharedA; sharedB] false false scenarioDirectory))
  ≠ knownConfigFiles (fst (RunE_locals [sharedB; sharedA] false false scenarioDirectory)).
Proof.
  split; [apply perm_swap|].
  intros Heq.
  assert (bool_decide ("b-legacy.yml" ∈ knownConfigFiles
            (fst (RunE_locals [sharedA; sharedB] false false scenarioDirectory))) = true)
    as Hin by (vm_compute; reflexivity).
  rewrite Heq in Hin. vm_compute in Hin. discriminate Hin.
Qed.


(** The example backup names are never in use. *)
Lemma length_append (s1 s2 : string) :
  String.length (s1 +:+ s2) = (String.length s1 + String.length s2)%nat.
Proof. induction s1 as [|c s1 IH]; simpl; [done | by rewrite IH]. Qed.

Lemma length_tildes (n : nat) :
  String.length (string_of_list_ascii (replicate n "~"%char)) = n.
Proof. induction n; simpl; congruence. Qed.

Lemma length_le_longest (name : string) (l : list string) :
  name ∈ l →
  (String.length name ≤ foldr (λ name n, Nat.max (String.length name) n) 0 l)%nat.
Proof.
  induction l as [|x l IH]; [by intros ?%elem_of_nil|].
  simpl. intros [-> | Hin]%elem_of_cons; [lia|]. specialize (IH Hin). lia.
Qed.

Lemma exampleBackupName_fresh : backupNamesFresh.
Proof.
  intros name used. unfold backupName. simpl. unfold exampleBackupName.
  case_bool_decide as Hbak; [|done].
  intros Hin%elem_of_elements%length_le_longest.
  unfold padding in Hin. rewrite !length_append, length_tildes in Hin.
  simpl in Hin. lia.
Qed.

Lemma distinct_IDs : idsIdentifyTasks [distTask; checkTask].
Proof.
  intros t1 t2 Ht1 Ht2 Hid.
  apply elem_of_cons in Ht1 as [-> | Ht1]; [|apply list_elem_of_singleton in Ht1 as ->];
    (apply elem_of_cons in Ht2 as [-> | Ht2]; [|apply list_elem_of_singleton in Ht2 as ->]);
    try reflexivity; vm_compute in Hid; discriminate Hid.
Defined.

Lemma RunE_order_independent_witness :
  [distTask; checkTask] ≡ₚ [checkTask; distTask] ∧
  idsIdentifyTasks [distTask; checkTask] ∧
  RunE_locals [distTask; checkTask] false false pluginDirectory
  = RunE_locals [checkTask; distTask] false false pluginDirectory ∧
  ∃ st pending,
    upgradePasses [distTask; checkTask] false false pluginDirectory
    = foldl (runLegacy (upgradeTasksMap [distTask; checkTask]) false false) st pending ∧
    StronglySorted string_le pending ∧
    pending ≡ₚ ID <$> filter hasLegacy [distTask; checkTask].
Proof.
  split; [apply perm_swap|]. split; [exact distinct_IDs|].
  apply (RunE_order_independent [distTask; checkTask] [checkTask; distTask]
           false false pluginDirectory).
  - apply perm_swap.
  - exact distinct_IDs.
Defined.




End Migration.

(** ** More on the legacy configuration upgrade *)
Module MigrationFacts.

Import Migration.

Section Facts.

Context `{External}.

(** *** The listing of the directory *)

Lemma HasSuffix_spec (s suffix : string) :
  HasSuffix s suffix = true ↔ ∃ before, s = before +:+ suffix.
Proof.
  induction s as [|c s IH]; cbn [HasSuffix].
  - rewrite orb_false_r. destruct (String.eqb_spec "" suffix) as [<-|Hne].
    + split; [by exists "" | done].
    + split; [done|]. intros [[|c before] Heq]; simpl in Heq; [done | discriminate].
  - rewrite orb_true_iff, IH.
    destruct (String.eqb_spec (String c s) suffix) as [<-|Hne].
    + split; [by exists "" | by left].
    + split.
      * intros [? | [before ->]]; [done | by exists (String c before)].
      * intros [[|c' before] Heq]; simpl in Heq; [done|].
        injection Heq as <- ->. right. by exists before.
Qed.

Lemma StronglySorted_filter {A} (R : relation A) (P : A → Prop) `{∀ x, Decision (P x)}
    (l : list A) :
  StronglySorted R l → StronglySorted R (filter P l).
Proof.
  induction 1 as [|x l Hl IH Hx]; [constructor|].
  rewrite filter_cons. case_decide; [|done].
  constructor; [done|].
  apply Forall_forall. intros y [_ Hy]%list_elem_of_filter.
  by apply (proj1 (Forall_forall _ _) Hx).
Qed.

(** X1. [dirYMLFiles] lists exactly the entries of the directory that are not
    directories and whose name ends in [.yml]; every such name once, in
    lexicographic order. *)
Theorem dirYMLFiles_spec (w : world) :
  (∀ name, name ∈ dirYMLFiles w ↔
     (∃ n, files w !! name = Some n ∧ IsDir n = false) ∧
     ∃ before, name = before +:+ ".yml") ∧
  NoDup (dirYMLFiles w) ∧
  StronglySorted string_le (dirYMLFiles w).
Proof.
  split; [|split].
  - intros name. unfold dirYMLFiles.
    rewrite list_elem_of_filter, HasSuffix_spec, sortStrings_perm, list_elem_of_fmap.
    split.
    + intros [Hsuffix [[name' n] [-> [Hdir Hin]%list_elem_of_filter]]].
      split; [|done]. exists n. by apply elem_of_map_to_list in Hin.
    + intros [[n [Hn Hdir]] Hsuffix]. split; [done|].
      exists (name, n). split; [done|].
      apply list_elem_of_filter. split; [done|]. by apply elem_of_map_to_list.
  - apply dirYMLFiles_NoDup.
  - apply StronglySorted_filter, sortStrings_sorted.
Qed.

(** *** The merge of the legacy excludes *)

Lemma addLegacyName_fold_modified (existing : gset string)
    (st : GodelConfig OtherConfig * bool) (names : list string) :
  snd (foldl (addLegacyName existing) st names) = true
  ↔ snd st = true ∨ ∃ n, n ∈ names ∧ n ∉ existing.
Proof.
  revert st. induction names as [|n names IH]; intros st; simpl.
  - split; [by left|]. intros [? | (n & []%elem_of_nil & _)]. done.
  - rewrite IH. unfold addLegacyName at 1. case_bool_decide as Hn; simpl.
    + split.
      * intros [? | (m & Hm & Hnew)]; [by left|]. right. exists m. split; [by right | done].
      * intros [? | (m & [-> | Hm]%elem_of_cons & Hnew)]; [by left | done |].
        right. by exists m.
    + split; [|by left]. intros _. right. exists n. split; [by left | done].
Qed.

Lemma addLegacyPath_fold_modified (existing : gset string)
    (st : GodelConfig OtherConfig * bool) (paths : list string) :
  snd (foldl (addLegacyPath existing) st paths) = true
  ↔ snd st = true ∨ ∃ p, p ∈ paths ∧ p ∉ existing.
Proof.
  revert st. induction paths as [|p paths IH]; intros st; simpl.
  - split; [by left|]. intros [? | (p & []%elem_of_nil & _)]. done.
  - rewrite IH. unfold addLegacyPath at 1. case_bool_decide as Hp; simpl.
    + split.
      * intros [? | (m & Hm & Hnew)]; [by left|]. right. exists m. split; [by right | done].
      * intros [? | (m & [-> | Hm]%elem_of_cons & Hnew)]; [by left | done |].
        right. by exists m.
    + split; [|by left]. intros _. right. exists p. split; [by left | done].
Qed.

Lemma addLegacyName_fold_unmodified (existing : gset string)
    (st : GodelConfig OtherConfig * bool) (names : list string) :
  (∀ n, n ∈ names → n ∈ existing) → foldl (addLegacyName existing) st names = st.
Proof.
  revert st. induction names as [|n names IH]; intros st Hall; [done|].
  simpl. unfold addLegacyName at 2. rewrite bool_decide_true by (apply Hall; by left).
  apply IH. intros m Hm. apply Hall. by right.
Qed.

Lemma addLegacyPath_fold_unmodified (existing : gset string)
    (st : GodelConfig OtherConfig * bool) (paths : list string) :
  (∀ p, p ∈ paths → p ∈ existing) → foldl (addLegacyPath existing) st paths = st.
Proof.
  revert st. induction paths as [|p paths IH]; intros st Hall; [done|].
  simpl. unfold addLegacyPath at 2. rewrite bool_decide_true by (apply Hall; by left).
  apply IH. intros m Hm. apply Hall. by right.
Qed.

(** X2. The exclude upgrader sets [modified], and with it rewrites
    [godel.yml], exactly when the legacy file has a name that is not among
    the current names or a path that is not among the current paths; when it
    has neither, the configuration comes out of the merge as it went in. *)
Theorem mergeExcludes_modified (excludeCfg : NamesPathsCfg)
    (current : GodelConfig OtherConfig) :
  (snd (mergeExcludes excludeCfg current) = true
   ↔ (∃ n, n ∈ Names excludeCfg ∧ n ∉ Names (Exclude current))
     ∨ (∃ p, p ∈ Paths excludeCfg ∧ p ∉ Paths (Exclude current))) ∧
  (snd (mergeExcludes excludeCfg current) = false →
   fst (mergeExcludes excludeCfg current) = current).
Proof.
  assert (snd (mergeExcludes excludeCfg current) = true
   ↔ (∃ n, n ∈ Names excludeCfg ∧ n ∉ Names (Exclude current))
     ∨ (∃ p, p ∈ Paths excludeCfg ∧ p ∉ Paths (Exclude current))) as Hiff.
  { unfold mergeExcludes.
    rewrite addLegacyPath_fold_modified, addLegacyName_fold_modified. simpl.
    setoid_rewrite elem_of_list_to_set. split.
    - intros [[? | ?] | ?]; [done | by left | by right].
    - intros [? | ?]; [left; by right | by right]. }
  split; [done|].
  intros Hfalse. apply not_true_iff_false in Hfalse. rewrite Hiff in Hfalse.
  unfold mergeExcludes.
  rewrite (addLegacyName_fold_unmodified _ _ (Names excludeCfg)).
  - rewrite (addLegacyPath_fold_unmodified _ _ (Paths excludeCfg)); [done|].
    intros p Hp. apply elem_of_list_to_set.
    destruct (decide (p ∈ Paths (Exclude current))); [done|].
    exfalso. apply Hfalse. right. by exists p.
  - intros n Hn. apply elem_of_list_to_set.
    destruct (decide (n ∈ Names (Exclude current))); [done|].
    exfalso. apply Hfalse. left. by exists n.
Qed.

(** X3. When no legacy path is new, the merge appends to the current names
    the legacy names that are not among them, in the order of the legacy
    file and as often as the legacy file repeats them, and leaves the paths
    and all other settings alone. *)
Theorem mergeExcludes_appends_new_names (excludeCfg : NamesPathsCfg)
    (current : GodelConfig OtherConfig) :
  (∀ p, p ∈ Paths excludeCfg → p ∈ Paths (Exclude current)) →
  fst (mergeExcludes excludeCfg current)
  = {| Exclude :=
         {| Names := Names (Exclude current)
                     ++ filter (λ n, n ∉ Names (Exclude current)) (Names excludeCfg);
            Paths := Paths (Exclude current) |};
       OtherSettings := OtherSettings current |}.
Proof.
  intros Hpaths. unfold mergeExcludes.
  rewrite (addLegacyPath_fold_unmodified _ _ (Paths excludeCfg))
    by (intros p Hp; by apply elem_of_list_to_set, Hpaths).
  generalize (Names excludeCfg). intros names.
  assert (∀ st : GodelConfig OtherConfig * bool,
    fst (foldl (addLegacyName (list_to_set (Names (Exclude current)))) st names)
    = {| Exclude :=
           {| Names := Names (Exclude (fst st))
                       ++ filter (λ n, n ∉ Names (Exclude current)) names;
              Paths := Paths (Exclude (fst st)) |};
         OtherSettings := OtherSettings (fst st) |}) as Hfold.
  { induction names as [|n names IH]; intros st.
    - simpl. rewrite app_nil_r. by destruct st as [[[] ?] ?].
    - simpl. rewrite IH, filter_cons. unfold addLegacyName.
      case_bool_decide as Hn; rewrite elem_of_list_to_set in Hn.
      + by rewrite decide_False by (by intros ?).
      + rewrite decide_True by done. simpl. by rewrite <- app_assoc. }
  apply Hfold.
Qed.

(** *** The upgrade passes *)

Lemma excludeUpgradeConfigFn_absent (dryRun printContent : bool) (w : world) :
  files w !! "exclude.yml" = None →
  excludeUpgradeConfigFn dryRun printContent w = (Ok tt, w).
Proof.
  intros Habsent. unfold excludeUpgradeConfigFn, bind, Stat. cbn beta iota.
  rewrite Habsent. rewrite bool_decide_false by (by intros [? ?]). done.
Qed.

Lemma upgradeLegacyConfig_absent (t : UpgradeConfigTask) (dryRun printContent : bool)
    (w : world) :
  files w !! LegacyConfigFile t = None →
  upgradeLegacyConfig t dryRun printContent w = (Ok tt, w).
Proof.
  intros Habsent. unfold upgradeLegacyConfig, bind, Stat. cbn beta iota.
  rewrite Habsent. rewrite bool_decide_false by (by intros [? ?]). done.
Qed.

Lemma runLegacy_fold_absent (tasksMap : gmap string UpgradeConfigTask)
    (dryRun printContent : bool) (st : locals * world) (ids : list string) :
  (∀ k t, k ∈ ids → tasksMap !! k = Some t → files (snd st) !! LegacyConfigFile t = None) →
  snd (foldl (runLegacy tasksMap dryRun printContent) st ids) = snd st ∧
  failedUpgrades (fst (foldl (runLegacy tasksMap dryRun printContent) st ids))
  = failedUpgrades (fst st).
Proof.
  revert st. induction ids as [|k ids IH]; intros st Habsent; [done|].
  simpl.
  assert (snd (runLegacy tasksMap dryRun printContent st k) = snd st ∧
          failedUpgrades (fst (runLegacy tasksMap dryRun printContent st k))
          = failedUpgrades (fst st)) as [Hw Hf].
  { unfold runLegacy. destruct (tasksMap !! k) as [t|] eqn:Hk; [|done].
    rewrite upgradeLegacyConfig_absent by (apply (Habsent k); [by left | done]). done. }
  destruct (IH (runLegacy tasksMap dryRun printContent st k)) as [Hw' Hf'].
  { intros k' t' Hk' Ht'. rewrite Hw. apply (Habsent k'); [by right | done]. }
  by rewrite Hw', Hf', Hw, Hf.
Qed.

Lemma pending_task (tasks : list UpgradeConfigTask) (k : string) (t : UpgradeConfigTask) :
  idsIdentifyTasks tasks →
  k ∈ sortStrings (ID <$> filter hasLegacy tasks) →
  upgradeTasksMap tasks !! k = Some t →
  t ∈ tasks ∧ hasLegacy t ∧ ID t = k.
Proof.
  intros Hids Hk Ht. rewrite sortStrings_perm in Hk.
  apply list_elem_of_fmap in Hk as (t' & -> & [Hleg Hin]%list_elem_of_filter).
  apply upgradeTasksMap_lookup_Some in Ht as [Ht Hid].
  assert (t = t') as -> by (by apply Hids). done.
Qed.

Lemma runHardCoded_absent (dryRun printContent : bool) (l : locals) (w : world) :
  files w !! "exclude.yml" = None →
  foldl (runHardCoded dryRun printContent) (l, w) hardCodedLegacyUpgraders
  = ({| knownConfigFiles := {["exclude.yml"]} ∪ knownConfigFiles l;
        failedUpgrades := failedUpgrades l |}, w).
Proof.
  intros Habsent. cbn [hardCodedLegacyUpgraders foldl].
  unfold runHardCoded, upgradeConfig. cbn [upgradeConfigFn fst snd].
  by rewrite excludeUpgradeConfigFn_absent.
Qed.

(** X4. When the directory has no [exclude.yml] and none of the legacy files
    the tasks declare (no two different tasks sharing an ID), the two upgrade
    passes leave the directory and the output exactly as they were and record
    no failure, in a dry run or not: there is nothing to migrate. *)
Theorem upgradePasses_nothing_to_migrate (tasks : list UpgradeConfigTask)
    (dryRun printContent : bool) (w : world) :
  idsIdentifyTasks tasks →
  files w !! "exclude.yml" = None →
  (∀ t, t ∈ tasks → hasLegacy t → files w !! LegacyConfigFile t = None) →
  snd (upgradePasses tasks dryRun printContent w) = w ∧
  failedUpgrades (fst (upgradePasses tasks dryRun printContent w)) = [].
Proof.
  intros Hids Hexclude Hlegacy. unfold upgradePasses.
  rewrite runHardCoded_absent by done.
  rewrite legacyConfigUpgraderIDs_eq. cbn [fst snd failedUpgrades].
  match goal with
  | |- context [foldl ?f ?st ?ids] =>
      destruct (runLegacy_fold_absent (upgradeTasksMap tasks) dryRun printContent st ids)
        as [Hw Hf]
  end.
  { cbn [snd]. intros k t Hk Ht.
    destruct (pending_task tasks k t Hids Hk Ht) as (Hin & Hleg & _).
    by apply Hlegacy. }
  by rewrite Hw, Hf.
Qed.

Lemma runLegacy_fold_known (tasksMap : gmap string UpgradeConfigTask)
    (dryRun printContent : bool) (st : locals * world) (ids : list string) (x : string) :
  x ∈ knownConfigFiles (fst (foldl (runLegacy tasksMap dryRun printContent) st ids))
  ↔ x ∈ knownConfigFiles (fst st)
    ∨ ∃ k t, k ∈ ids ∧ tasksMap !! k = Some t ∧ x = LegacyConfigFile t.
Proof.
  revert st. induction ids as [|k ids IH]; intros st; simpl.
  - split; [by left|]. intros [? | (k & t & []%elem_of_nil & _)]. done.
  - rewrite IH. unfold runLegacy at 1. destruct (tasksMap !! k) as [t|] eqn:Hk.
    + cbn [fst knownConfigFiles]. rewrite elem_of_union, elem_of_singleton. split.
      * intros [[-> | ?] | (k' & t' & Hk' & Ht' & ->)].
        -- right. exists k, t. split; [by left | done].
        -- by left.
        -- right. exists k', t'. split; [by right | done].
      * intros [? | (k' & t' & [-> | Hk']%elem_of_cons & Ht' & ->)].
        -- left. by right.
        -- left. left. congruence.
        -- right. by exists k', t'.
    + split.
      * intros [? | (k' & t' & Hk' & Ht' & ->)]; [by left|].
        right. exists k', t'. split; [by right | done].
      * intros [? | (k' & t' & [-> | Hk']%elem_of_cons & Ht' & ->)];
          [by left | congruence |]. right. by exists k', t'.
Qed.

(** X6. The known files at the end of the two passes do not depend on the
    directory, on failures or on the dry-run flag: they are [exclude.yml],
    the current file of every task and the legacy file of every task that
    declares one (no two different tasks sharing an ID). *)
Theorem upgradePasses_known_exactly (tasks : list UpgradeConfigTask)
    (dryRun printContent : bool) (w : world) :
  idsIdentifyTasks tasks →
  knownConfigFiles (fst (upgradePasses tasks dryRun printContent w))
  = {["exclude.yml"]} ∪ list_to_set (ConfigFile <$> tasks)
    ∪ list_to_set (LegacyConfigFile <$> filter hasLegacy tasks).
Proof.
  intros Hids. apply set_eq. intros x. unfold upgradePasses.
  rewrite runLegacy_fold_known, legacyConfigUpgraderIDs_eq. cbn [fst snd knownConfigFiles].
  cbn [hardCodedLegacyUpgraders foldl]. unfold runHardCoded at 1.
  cbn [fst knownConfigFiles configFileName fileName].
  rewrite !elem_of_union, !elem_of_list_to_set, elem_of_singleton, !list_elem_of_fmap.
  split.
  - intros [[? | [? | []%elem_of_empty]] | (k & t & Hk & Ht & ->)].
    + left. by right.
    + left. by left.
    + right. destruct (pending_task tasks k t Hids Hk Ht) as (Hin & Hleg & _).
      exists t. split; [done|]. by apply list_elem_of_filter.
  - intros [[-> | ?] | (t & -> & [Hleg Hin]%list_elem_of_filter)].
    + left. right. by left.
    + left. by left.
    + right. exists (ID t), t. split; [|split; [|done]].
      * rewrite sortStrings_perm. apply list_elem_of_fmap. exists t.
        split; [done|]. by apply list_elem_of_filter.
      * by apply upgradeTasksMap_lookup.
Qed.

(** *** One plugin upgrade *)

Lemma backupConfigFile_absent (name : string) (dryRun : bool) (w : world) :
  files w !! name = None → backupConfigFile name dryRun w = (Ok tt, w).
Proof. intros Habsent. unfold backupConfigFile. by rewrite Habsent. Qed.



(** X7. When the transform returns no bytes, a plugin upgrade that is not a
    dry run succeeds without writing the current file: all it does is back up
    the legacy file and then the current file, and it prints no upgraded
    configuration. *)
Theorem upgradeLegacyConfig_empty_output (t : UpgradeConfigTask) (printContent : bool)
    (w : world) (bytes ymlCfgBytes : string) (ymlConfig : list MapItem) :
  files w !! LegacyConfigFile t = Some (RegularFile true bytes) →
  unmarshalMapSlice bytes = Ok ymlConfig →
  marshalMapSlice (legacyConfigItem :: ymlConfig) = Ok ymlCfgBytes →
  Run t ymlCfgBytes = Ok "" →
  upgradeLegacyConfig t false printContent w
  = (Ok tt, backupAll [LegacyConfigFile t; ConfigFile t] false w) ∧
  Forall (λ l, ∃ src dst, l = BackedUp src dst false)
         (drop (length (stdout w))
               (stdout (backupAll [LegacyConfigFile t; ConfigFile t] false w))).
Proof.
  intros Hfile Hun Hma Hrun.
  unfold upgradeLegacyConfig, bind, wrapf, Stat, ReadFile, lift.
  cbn beta iota. rewrite Hfile.
  rewrite bool_decide_true by (by eexists). cbn [negb]. cbv beta iota.
  rewrite Hfile, Hun. cbn [app]. rewrite Hma, Hrun.
  cbn [backupAll foldl].
  pose proof (backupConfigFile_Ok (LegacyConfigFile t) false w) as Hok1.
  destruct (backupConfigFile (LegacyConfigFile t) false w) as [r1 w1] eqn:Hb1.
  cbn [fst snd] in *. subst r1.
  pose proof (backupConfigFile_Ok (ConfigFile t) false w1) as Hok2.
  destruct (backupConfigFile (ConfigFile t) false w1) as [r2 w2] eqn:Hb2.
  cbn [fst snd] in *. subst r2. cbn [String.eqb]. split; [done|].
  assert (∃ dst, stdout w1 = stdout w ++ [BackedUp (LegacyConfigFile t) dst false])
    as [l' Hout1].
  { replace w1 with (snd (backupConfigFile (LegacyConfigFile t) false w)) by (by rewrite Hb1).
    apply backupConfigFile_stdout. by eexists. }
  assert (stdout w2 = stdout w1 ∨
          ∃ dst, stdout w2 = stdout w1 ++ [BackedUp (ConfigFile t) dst false])
    as [Hout2 | [d' Hout2]].
  { replace w2 with (snd (backupConfigFile (ConfigFile t) false w1)) by (by rewrite Hb2).
    destruct (files w1 !! ConfigFile t) as [nd|] eqn:Hdst.
    - right. apply backupConfigFile_stdout. by eexists.
    - left. by rewrite backupConfigFile_absent. }
  - rewrite Hout2, Hout1, drop_app_length. repeat constructor. by eexists _, _.
  - rewrite Hout2, Hout1, <- app_assoc, drop_app_length.
    repeat constructor; by eexists _, _.
Qed.

(** *** Unhandled files and the final report *)

Lemma unknownNonEmpty_app (l1 l2 : list string) (dryRun : bool) (acc : list string)
    (w : world) :
  unknownNonEmpty (l1 ++ l2) dryRun acc w
  = bind (unknownNonEmpty l1 dryRun acc) (λ acc', unknownNonEmpty l2 dryRun acc') w.
Proof.
  revert acc w. induction l1 as [|g l1 IH]; intros acc w.
  { unfold bind. done. }
  cbn [app unknownNonEmpty]. unfold bind, wrapf in IH |- *.
  destruct (ReadFile g w) as [[e|bytes] w1]; [done|].
  destruct (String.eqb bytes ""); [|apply IH].
  destruct (backupConfigFile g dryRun w1) as [[e|[]] w2]; [done|].
  apply IH.
Qed.

Lemma backupAll_other (names : list string) (other : string) (dryRun : bool) (w : world) :
  backupNamesFresh → other ∉ names → is_Some (files w !! other) →
  files (backupAll names dryRun w) !! other = files w !! other.
Proof.
  intros Hfresh. revert w. induction names as [|g names IH]; intros w Hnotin Hsome; [done|].
  cbn [backupAll foldl]. fold (backupAll names dryRun (snd (backupConfigFile g dryRun w))).
  assert (files (snd (backupConfigFile g dryRun w)) !! other = files w !! other) as Hstep.
  { apply backupConfigFile_other; [done | | done]. intros ->. apply Hnotin. by left. }
  rewrite IH; [done | | by rewrite Hstep]. intros Hin. apply Hnotin. by right.
Qed.

(** X8. [processUnhandledYMLFiles] stops at the first file it cannot read:
    it returns the error of that read, wrapped; of the files before it the
    empty ones have been backed up; the files after it are not looked at and
    no warning is printed, however many non-empty files there are. *)
Theorem processUnhandledYMLFiles_unreadable (before after : list string) (f : string)
    (dryRun : bool) (w : world) (e : error) :
  backupNamesFresh →
  NoDup (before ++ [f]) →
  (∀ g, g ∈ before → readableIn w g) →
  is_Some (files w !! f) →
  fst (ReadFile f w) = Err e →
  ∃ lines,
    processUnhandledYMLFiles (before ++ f :: after) dryRun w
    = (Err (Wrapf e "failed to read configuration file"),
       {| files := files (backupAll (emptyFiles w before) dryRun w);
          stdout := stdout w ++ lines |}) ∧
    Forall2 (λ l g, ∃ dst, l = BackedUp g dst dryRun) lines (emptyFiles w before).
Proof.
  intros Hfresh Hnd Hread Hsome Herr.
  apply NoDup_app in Hnd as (Hndb & Hdisj & _).
  destruct (unknownNonEmpty_readable w before dryRun [] w Hfresh Hndb)
    as (lines & Heq & Hlog & Hall);
    [by auto | by intros g _ _ w'; apply backupConfigFile_Ok |].
  exists lines. split; [|done].
  unfold processUnhandledYMLFiles.
  replace (Nat.eqb (length (before ++ f :: after)) 0) with false
    by (rewrite length_app; simpl; symmetry; apply Nat.eqb_neq; lia).
  unfold bind at 1. rewrite unknownNonEmpty_app. unfold bind at 1. rewrite Heq.
  cbn [unknownNonEmpty]. unfold bind at 1, wrapf.
  assert (files (backupAll (emptyFiles w before) dryRun w) !! f = files w !! f) as Hsame.
  { apply backupAll_other; [done | | done].
    intros [_ Hin]%list_elem_of_filter. apply (Hdisj f Hin). by left. }
  unfold ReadFile in Herr |- *. cbn [files]. rewrite Hsame.
  destruct (files w !! f) as [[[] content|]|]; simpl in Herr; by simplify_eq.
Qed.

Lemma printFailures_eq (failed : list string) (dryRun : bool) (w : world) :
  printFailures failed dryRun w
  = (Ok tt, {| files := files w;
               stdout := stdout w
                         ++ ((λ upgrade, Println dryRun (String "009" upgrade)) <$> failed) |}).
Proof.
  unfold printFailures. induction failed as [|f failed IH] using rev_ind.
  - simpl. rewrite app_nil_r. by destruct w.
  - rewrite foldl_snoc. unfold bind at 1. rewrite IH.
    unfold dryRunPrintln, print. cbn [files stdout].
    by rewrite fmap_app, <- app_assoc.
Qed.

(** X9. The report at the end of the run: without a failed upgrade it prints
    nothing and the run succeeds; otherwise it prints the banner and then one
    line per failed upgrade, a tab and the failure, in the order in which the
    upgrades failed, and the run returns an error with an empty message. *)
Theorem reportFailures_output (failed : list string) (dryRun : bool) (w : world) :
  reportFailures failed dryRun w
  = match failed with
    | [] => (Ok tt, w)
    | _ =>
        (Err (errorString ""),
         {| files := files w;
            stdout := stdout w
                      ++ Println dryRun "Failed to upgrade configuration:"
                         :: ((λ upgrade, Println dryRun (String "009" upgrade)) <$> failed) |})
    end.
Proof.
  unfold reportFailures. destruct failed as [|f failed]; [done|].
  cbn [length Nat.eqb]. unfold bind at 1, dryRunPrintln at 1, print at 1.
  unfold bind at 1. rewrite printFailures_eq. cbn [files stdout lift].
  unfold lift. by rewrite <- app_assoc.
Qed.

End Facts.

(** *** The properties at work, in the instance of [Migration] *)

#[local] Existing Instance exampleExternal.

(** A task whose transform has nothing to say. *)
Definition silentTask : UpgradeConfigTask :=
  {| ID := "com.palantir.silent:silent-plugin"; ConfigFile := "silent-plugin.yml";
     LegacyConfigFile := "dist.yml"; Run := λ bytes, Ok "" |}.

(** A directory that has been migrated: no legacy file is left. *)
Definition migratedDirectory : world :=
  exampleDirectory [("godel.yml", RegularFile true "n=dist;n=build");
                    ("dist-plugin.yml", RegularFile true "legacy-config=true;products=a");
                    ("exclude.yml.bak", RegularFile true "n=build")].

Lemma mergeExcludes_appends_new_names_witness :
  fst (mergeExcludes {| Names := ["build"; "dist"; "build"]; Paths := ["vendor"] |}
                     {| Exclude := {| Names := ["dist"]; Paths := ["vendor"] |};
                        OtherSettings := tt |})
  = {| Exclude := {| Names := ["dist"; "build"; "build"]; Paths := ["vendor"] |};
       OtherSettings := tt |}.
Proof.
  apply (mergeExcludes_appends_new_names (H := exampleExternal)
           {| Names := ["build"; "dist"; "build"]; Paths := ["vendor"] |}
           {| Exclude := {| Names := ["dist"]; Paths := ["vendor"] |};
              OtherSettings := tt |}).
  intros p Hp. exact Hp.
Defined.

Lemma no_legacy_file_left :
  ∀ t, t ∈ [distTask; checkTask] → hasLegacy t →
       files migratedDirectory !! LegacyConfigFile t = None.
Proof.
  intros t Ht _.
  apply elem_of_cons in Ht as [-> | Ht]; [|apply list_elem_of_singleton in Ht as ->];
    vm_compute; reflexivity.
Defined.

Lemma upgradePasses_nothing_to_migrate_witness :
  snd (upgradePasses [distTask; checkTask] false false migratedDirectory) = migratedDirectory ∧
  failedUpgrades (fst (upgradePasses [distTask; checkTask] false false migratedDirectory)) = [].
Proof.
  apply (upgradePasses_nothing_to_migrate (H := exampleExternal) [distTask; checkTask] false false migratedDirectory).
  - exact distinct_IDs.
  - vm_compute. reflexivity.
  - exact no_legacy_file_left.
Defined.

Lemma upgradePasses_known_exactly_witness :
  knownConfigFiles (fst (upgradePasses [distTask; checkTask] true false pluginDirectory))
  = {["exclude.yml"]} ∪ list_to_set (ConfigFile <$> [distTask; checkTask])
    ∪ list_to_set (LegacyConfigFile <$> filter hasLegacy [distTask; checkTask]).
Proof.
  apply (upgradePasses_known_exactly (H := exampleExternal) [distTask; checkTask] true false pluginDirectory).
  exact distinct_IDs.
Defined.


Lemma upgradeLegacyConfig_empty_output_witness :
  upgradeLegacyConfig silentTask false false pluginDirectory
  = (Ok tt, backupAll [LegacyConfigFile silentTask; ConfigFile silentTask] false pluginDirectory) ∧
  Forall (λ l, ∃ src dst, l = BackedUp src dst false)
         (drop (length (stdout pluginDirectory))
               (stdout (backupAll [LegacyConfigFile silentTask; ConfigFile silentTask]
                                  false pluginDirectory))).
Proof.
  apply (upgradeLegacyConfig_empty_output (H := exampleExternal) silentTask false pluginDirectory
           "products=a" "legacy-config=true;products=a" ["products=a"]).
  - vm_compute. reflexivity.
  - reflexivity.
  - reflexivity.
  - reflexivity.
Defined.

Lemma notes_readable : ∀ g, g ∈ ["notes.yml"] → readableIn strayDirectory g.
Proof.
  intros g ->%list_elem_of_singleton. exists "k=v". vm_compute. reflexivity.
Defined.

Lemma processUnhandledYMLFiles_unreadable_witness :
  ∃ lines,
    processUnhandledYMLFiles (["notes.yml"] ++ "stray.yml" :: ["later.yml"]) false strayDirectory
    = (Err (Wrapf (errorString "permission denied") "failed to read configuration file"),
       {| files := files (backupAll (emptyFiles strayDirectory ["notes.yml"]) false strayDirectory);
          stdout := stdout strayDirectory ++ lines |}) ∧
    Forall2 (λ l g, ∃ dst, l = BackedUp g dst false) lines
            (emptyFiles strayDirectory ["notes.yml"]).
Proof.
  apply (processUnhandledYMLFiles_unreadable (H := exampleExternal) ["notes.yml"] ["later.yml"] "stray.yml" false
           strayDirectory (errorString "permission denied")).
  - exact exampleBackupName_fresh.
  - apply NoDup_cons. split.
    + intros Hin%list_elem_of_singleton. discriminate Hin.
    + apply NoDup_singleton.
  - exact notes_readable.
  - exists (RegularFile false "k=v"). vm_compute. reflexivity.
  - vm_compute. reflexivity.
Defined.

End MigrationFacts.

(** ** More on task descriptors *)
Module PluginapiFacts.

Import Pluginapi.

(** The values the parameters of a kind carry, in order; [nil] parameters
    and parameters of other kinds are left out. *)
Definition commandsOf (params : list (option TaskInfoParam)) : list (list string) :=
  omap (λ p, match p with Some (TaskInfoCommand command) => Some command | _ => None end)
       params.

Definition globalFlagOptionsOf (params : list (option TaskInfoParam))
  : list globalFlagOptionsImpl :=
  omap (λ p, match p with Some (TaskInfoGlobalFlagOptions opts) => Some opts | _ => None end)
       params.

Definition verifyOptionsOf (params : list (option TaskInfoParam)) : list verifyOptionsImpl :=
  omap (λ p, match p with Some (TaskInfoVerifyOptions opts) => Some opts | _ => None end)
       params.

(** The six whitespace bytes of ASCII. *)
Definition asciiSpaces : list ascii := [" "; "009"; "010"; "011"; "012"; "013"]%char.

Definition isAsciiSpace (a : ascii) : bool := existsb (Ascii.eqb a) asciiSpaces.

Lemma applyParams_snoc (params : list (option TaskInfoParam)) (p : option TaskInfoParam)
    (impl : taskInfoImpl) :
  applyParams (params ++ [p]) impl
  = match p with
    | None => applyParams params impl
    | Some p => apply p (applyParams params impl)
    end.
Proof. unfold applyParams. by rewrite foldl_snoc. Qed.

Lemma applyParams_Name (params : list (option TaskInfoParam)) (impl : taskInfoImpl) :
  NameVar (applyParams params impl) = NameVar impl ∧
  DescriptionVar (applyParams params impl) = DescriptionVar impl.
Proof.
  induction params as [|p params IH] using rev_ind; [done|].
  rewrite applyParams_snoc. destruct p as [[]|]; simpl; done.
Qed.

(** X10. A descriptor that [NewTaskInfo] returns has the name and the
    description it was given, whatever the parameters, and no rune of its
    name is a whitespace character. *)
Theorem NewTaskInfo_keeps_name (quote : string → string) (name description : string)
    (params : list (option TaskInfoParam)) (ti : taskInfoImpl) :
  NewTaskInfo quote name description params = Ok ti →
  NameVar ti = name ∧ DescriptionVar ti = description ∧
  Forall (λ r, IsSpace r = false) (runes (NameVar ti)).
Proof.
  unfold NewTaskInfo. destruct (hasSpace name) eqn:Hspace; [discriminate|].
  intros [= <-]. destruct (applyParams_Name params
    {| NameVar := name; DescriptionVar := description; CommandVar := [];
       GlobalFlagOptionsVar := None; VerifyOptionsVar := None |}) as [-> ->].
  split; [done|]. split; [done|]. simpl.
  apply Forall_forall. intros r Hr. apply not_true_iff_false. intros Hsp.
  apply not_true_iff_false in Hspace. apply Hspace, hasSpace_spec, Exists_exists.
  by exists r.
Qed.

(** X11. Of several parameters of one kind the last one decides, a [nil]
    parameter changes nothing, and a field no parameter sets keeps its value:
    the command tokens are those of the last [TaskInfoCommand], the global
    flag options those of the last [TaskInfoGlobalFlagOptions], the verify
    options those of the last [TaskInfoVerifyOptions]. *)
Theorem applyParams_last_wins (params : list (option TaskInfoParam)) (impl : taskInfoImpl) :
  CommandVar (applyParams params impl)
  = default (CommandVar impl) (last (commandsOf params)) ∧
  GlobalFlagOptionsVar (applyParams params impl)
  = match last (globalFlagOptionsOf params) with
    | Some opts => Some opts
    | None => GlobalFlagOptionsVar impl
    end ∧
  VerifyOptionsVar (applyParams params impl)
  = match last (verifyOptionsOf params) with
    | Some opts => Some opts
    | None => VerifyOptionsVar impl
    end.
Proof.
  induction params as [|p params (IHc & IHg & IHv)] using rev_ind; [done|].
  rewrite applyParams_snoc.
  unfold commandsOf, globalFlagOptionsOf, verifyOptionsOf in *.
  rewrite !omap_app.
  destruct p as [[command|[]|[]]|]; simpl; rewrite ?last_snoc, ?app_nil_r; done.
Qed.

Lemma first_ascii (s0 : Z) : s0 < 0x80 → first s0 = None.
Proof.
  intros Hlt. unfold first.
  repeat match goal with
         | |- context [(?a <=? ?b) && _] => destruct (Z.leb_spec a b); [lia|]; cbn [andb]
         | |- context [?a =? ?b] => destruct (Z.eqb_spec a b); [lia|]
         end.
  done.
Qed.

Lemma runes_ascii (s : string) :
  Forall (λ a, byteval a < 0x80) (list_ascii_of_string s) →
  runes s = byteval <$> list_ascii_of_string s.
Proof.
  induction s as [|a s IH]; [done|].
  cbn [list_ascii_of_string]. intros [Ha Hs]%Forall_cons.
  cbn [runes]. rewrite first_ascii by done.
  apply Z.ltb_lt in Ha. rewrite Ha. cbn [fmap list_fmap]. f_equal. by apply IH.
Qed.

Lemma IsSpace_ascii (a : ascii) :
  byteval a < 0x80 → IsSpace (byteval a) = isAsciiSpace a.
Proof.
  intros Hlt%Z.ltb_lt. revert Hlt.
  destruct a as [[] [] [] [] [] [] [] []]; vm_compute; intros Hlt;
    first [reflexivity | discriminate Hlt].
Qed.

Lemma isAsciiSpace_spec (a : ascii) : isAsciiSpace a = true ↔ In a asciiSpaces.
Proof.
  unfold isAsciiSpace. rewrite existsb_exists. split.
  - intros (b & Hb & ->%Ascii.eqb_eq). done.
  - intros Hin. exists a. split; [done | apply Ascii.eqb_refl].
Qed.

(** X12. A name with one of the six ASCII whitespace bytes anywhere in it is
    rejected, whatever its other bytes are; and a name made of ASCII bytes
    only is rejected exactly when one of its bytes is one of those six. *)
Theorem NewTaskInfo_ascii_names (quote : string → string) (name description : string)
    (params : list (option TaskInfoParam)) :
  (∀ a, In a (list_ascii_of_string name) → In a asciiSpaces →
        NewTaskInfo quote name description params = Err (whitespaceError quote name)) ∧
  (Forall (λ a, byteval a < 0x80) (list_ascii_of_string name) →
   (NewTaskInfo quote name description params = Err (whitespaceError quote name)
    ↔ ∃ a, In a (list_ascii_of_string name) ∧ In a asciiSpaces) ∧
   ((∃ ti, NewTaskInfo quote name description params = Ok ti)
    ↔ ∀ a, In a (list_ascii_of_string name) → ¬ In a asciiSpaces)).
Proof.
  split.
  - intros a Hin Hsp. by apply (NewTaskInfo_ascii_space quote name description params a).
  - intros Hascii.
    assert (hasSpace name = true ↔ ∃ a, In a (list_ascii_of_string name) ∧ In a asciiSpaces)
      as Hspace.
    { unfold hasSpace. rewrite runes_ascii by done.
      rewrite existsb_exists. split.
      - intros (r & Hr & Hsp). apply list_elem_of_In, list_elem_of_fmap in Hr as (a & -> & Ha).
        exists a. split; [by apply list_elem_of_In|].
        apply isAsciiSpace_spec. rewrite <- IsSpace_ascii; [done|].
        by apply (proj1 (Forall_forall _ _) Hascii).
      - intros (a & Ha & Hsp). exists (byteval a). split.
        + apply list_elem_of_In, list_elem_of_fmap. exists a.
          split; [done | by apply list_elem_of_In].
        + rewrite IsSpace_ascii; [by apply isAsciiSpace_spec|].
          apply (proj1 (Forall_forall _ _) Hascii). by apply list_elem_of_In. }
    unfold NewTaskInfo. destruct (hasSpace name) eqn:Hhas.
    + split; [split; [intros _; by apply Hspace | done]|].
      split; [by intros [ti ?]|].
      intros Hnone. destruct (proj1 Hspace eq_refl) as (a & Ha & Hsp).
      by destruct (Hnone a Ha).
    + split.
      * split; [done|]. intros Hex. apply Hspace in Hex. discriminate Hex.
      * split; [|intros _; by eexists].
        intros _ a Ha Hsp.
        assert (false = true) as Hf by (apply Hspace; by exists a). discriminate Hf.
Qed.

Section Invocation.

Variable pathDir : string → string.
Variable pathJoin : string → string → string.
Variable ConfigDirPath : string → result string.
Variable GodelConfigYML : string.
Variable cmdRun : string → list string → option error.

(** X13. A task built from a descriptor without global flag options is run
    with the descriptor's command tokens followed by the task arguments and
    nothing else, whatever the global configuration says and even where the
    config directory cannot be resolved. *)
Theorem cmdArgs_without_global_flag_options (ti : taskInfoImpl)
    (pluginExecPath cfgFileName : string) (global : GlobalConfig) :
  GlobalFlagOptionsVar ti = None →
  cmdArgs pathDir pathJoin ConfigDirPath GodelConfigYML ti
          (toTask ti pluginExecPath cfgFileName) global
  = Ok (CommandVar ti ++ TaskArgs global).
Proof.
  intros Hnone. unfold cmdArgs. rewrite globalFlagArgs_eq.
  unfold needsConfigDir, debugArgs, flagPair, toTask. rewrite Hnone.
  cbn [GlobalFlagOpts DebugFlag ProjectDirFlag GodelConfigFlag ConfigFlag ConfigFile].
  unfold nonEmpty at 2 3 4 5 6. cbn [String.eqb negb orb andb].
  rewrite !andb_false_r. by destruct (nonEmpty (Wrapper global)).
Qed.

(** X14. The construction of the arguments fails in one case only: a pair
    needs the config directory (there is a wrapper, and the task accepts the
    godel-config flag or accepts the plugin-config flag and has a config
    file) and the directory cannot be resolved.  [RunImpl] then returns that
    failure, wrapped, whatever the plugin would have done. *)
Theorem cmdArgs_failure (ti : taskInfoImpl) (pluginExecPath : string) (t : Task)
    (global : GlobalConfig) (err : error) :
  (cmdArgs pathDir pathJoin ConfigDirPath GodelConfigYML ti t global = Err err
   ↔ needsConfigDir t global = true ∧
     ∃ cause, ConfigDirPath (pathDir (Wrapper global)) = Err cause ∧
              err = Wrapf cause "failed to determine config directory path") ∧
  (cmdArgs pathDir pathJoin ConfigDirPath GodelConfigYML ti t global = Err err →
   RunImpl pathDir pathJoin ConfigDirPath GodelConfigYML cmdRun ti pluginExecPath t global
   = Some err).
Proof.
  split.
  - unfold cmdArgs. rewrite globalFlagArgs_eq.
    destruct (needsConfigDir t global).
    + destruct (ConfigDirPath (pathDir (Wrapper global))) as [cause|cfgDir].
      * split.
        -- intros [= <-]. split; [done|]. by exists cause.
        -- intros [_ (cause' & [= <-] & ->)]. done.
      * split; [discriminate|]. intros [_ (cause' & Hc & _)]. discriminate Hc.
    + split; [discriminate|]. intros [Hf _]. discriminate Hf.
  - intros Hargs. unfold RunImpl. by rewrite Hargs.
Qed.

End Invocation.

Lemma NewTaskInfo_keeps_name_witness :
  NameVar {| NameVar := "publish"; DescriptionVar := "Publish products";
             CommandVar := ["dist"; "publish"];
             GlobalFlagOptionsVar := None; VerifyOptionsVar := None |} = "publish" ∧
  DescriptionVar {| NameVar := "publish"; DescriptionVar := "Publish products";
                    CommandVar := ["dist"; "publish"];
                    GlobalFlagOptionsVar := None; VerifyOptionsVar := None |}
  = "Publish products" ∧
  Forall (λ r, IsSpace r = false)
         (runes (NameVar {| NameVar := "publish"; DescriptionVar := "Publish products";
                            CommandVar := ["dist"; "publish"];
                            GlobalFlagOptionsVar := None; VerifyOptionsVar := None |})).
Proof.
  apply (NewTaskInfo_keeps_name exampleQuote "publish" "Publish products"
           [Some (TaskInfoCommand ["publish"]); None;
            Some (TaskInfoCommand ["dist"; "publish"])]).
  reflexivity.
Defined.

Lemma NewTaskInfo_ascii_names_witness :
  NewTaskInfo exampleQuote "my task" "" [] = Err (whitespaceError exampleQuote "my task") ∧
  ∃ ti, NewTaskInfo exampleQuote "publish" "" [] = Ok ti.
Proof.
  split.
  - apply (proj1 (NewTaskInfo_ascii_names exampleQuote "my task" "" []) " "%char).
    + simpl. tauto.
    + simpl. tauto.
  - apply (proj2 (NewTaskInfo_ascii_names exampleQuote "publish" "" [])).
    + repeat constructor.
    + intros a Ha Hsp. simpl in Ha, Hsp.
      repeat (destruct Ha as [<- | Ha];
              [repeat (destruct Hsp as [Hsp | Hsp]; [discriminate Hsp|]); done|]).
      done.
Defined.

Definition plainTaskInfo : taskInfoImpl :=
  {| NameVar := "version"; DescriptionVar := "Print the version";
     CommandVar := ["version"]; GlobalFlagOptionsVar := None; VerifyOptionsVar := None |}.

Lemma cmdArgs_without_global_flag_options_witness :
  cmdArgs exampleDir exampleJoin (λ _, Err (errorString "not a godel project")) "godel.yml"
          plainTaskInfo (toTask plainTaskInfo "/plugins/dist-plugin" "dist.yml") exampleGlobal
  = Ok (CommandVar plainTaskInfo ++ TaskArgs exampleGlobal).
Proof.
  apply (cmdArgs_without_global_flag_options exampleDir exampleJoin
           (λ _, Err (errorString "not a godel project")) "godel.yml"
           plainTaskInfo "/plugins/dist-plugin" "dist.yml" exampleGlobal).
  reflexivity.
Defined.

Lemma cmdArgs_failure_witness :
  RunImpl exampleDir exampleJoin (λ _, Err (errorString "not a godel project")) "godel.yml"
          exampleRunExit exampleTaskInfo "/plugins/dist-plugin"
          (toTask exampleTaskInfo "/plugins/dist-plugin" "dist.yml") exampleGlobal
  = Some (Wrapf (errorString "not a godel project")
                "failed to determine config directory path").
Proof.
  apply (proj2 (cmdArgs_failure exampleDir exampleJoin
                  (λ _, Err (errorString "not a godel project")) "godel.yml"
                  exampleRunExit exampleTaskInfo "/plugins/dist-plugin"
                  (toTask exampleTaskInfo "/plugins/dist-plugin" "dist.yml") exampleGlobal
                  (Wrapf (errorString "not a godel project")
                         "failed to determine config directory path"))).
  reflexivity.
Defined.

End PluginapiFacts.

(** ** More on publishing *)
Module PublishFacts.

Import Publish.

(** No digest is present. *)
Definition noDigest (c : checksums) : Prop := MD5 c = "" ∧ SHA1 c = "" ∧ SHA256 c = "".

(** All three digests are present, as in the checksums [newFileInfo] computes
    for a file. *)
Definition allDigests (c : checksums) : Prop := MD5 c ≠ "" ∧ SHA1 c ≠ "" ∧ SHA256 c ≠ "".

Lemma nonEmptyEqual_refl (s : string) : nonEmptyEqual s s = negb (String.eqb s "").
Proof. unfold nonEmptyEqual. rewrite String.eqb_refl. by destruct (String.eqb s ""). Qed.

Lemma nonEmptyDiffer_refl (s : string) : nonEmptyDiffer s s = false.
Proof. unfold nonEmptyDiffer. rewrite String.eqb_refl. by destruct (String.eqb s ""). Qed.

(** X15. Checksums match themselves exactly when they carry at least one
    digest; checksums without any digest match nothing, not even themselves,
    and nothing matches them. *)
Theorem checksums_match_self (c : checksums) :
  (checksums_match c c = true ↔ ¬ noDigest c) ∧
  (noDigest c → ∀ other, checksums_match c other = false ∧ checksums_match other c = false).
Proof.
  split.
  - unfold checksums_match, noDigest.
    rewrite !nonEmptyEqual_refl, !nonEmptyDiffer_refl. cbn [orb].
    destruct (String.eqb_spec (MD5 c) ""), (String.eqb_spec (SHA1 c) ""),
      (String.eqb_spec (SHA256 c) ""); cbn; split; try done; tauto.
  - intros (Hm & Hs & Hs2) other. unfold checksums_match, nonEmptyEqual.
    rewrite Hm, Hs, Hs2. cbn [String.eqb negb andb orb].
    rewrite !andb_false_r. done.
Qed.

(** X16. For checksums with all three digests, as computed for a local file,
    [match] with other checksums holds exactly when the others carry at
    least one digest and every digest they carry is the file's. *)
Theorem checksums_match_computed (c other : checksums) :
  allDigests c →
  (checksums_match c other = true
   ↔ ¬ noDigest other ∧
     (MD5 other = "" ∨ MD5 other = MD5 c) ∧
     (SHA1 other = "" ∨ SHA1 other = SHA1 c) ∧
     (SHA256 other = "" ∨ SHA256 other = SHA256 c)).
Proof.
  intros (Hm & Hs & Hs2). unfold checksums_match, nonEmptyEqual, nonEmptyDiffer, noDigest.
  apply String.eqb_neq in Hm, Hs, Hs2. rewrite Hm, Hs, Hs2. cbn [negb andb].
  destruct (String.eqb_spec (MD5 other) ""), (String.eqb_spec (SHA1 other) ""),
    (String.eqb_spec (SHA256 other) ""),
    (String.eqb_spec (MD5 c) (MD5 other)), (String.eqb_spec (SHA1 c) (SHA1 other)),
    (String.eqb_spec (SHA256 c) (SHA256 other)); cbn; split; try done;
    try (intros _; repeat split; auto; tauto); intros (Hno & [?|?] & [?|?] & [?|?]);
    try done; try congruence; exfalso; tauto.
Qed.

(** *** Uploads

    What [uploadFile] uses from outside the file: [path.Base], the reading
    of a file, the three digests in hexadecimal, [url.Parse], the HTTP
    client, the [%q] verb and the reading of a message as a format
    ([fmt.Errorf(msg)]).  What it does is recorded as a list of events. *)
Record fileInfo : Type := {
  path : string;
  bytes : string;
  fileChecksums : checksums
}.

Record BasicConnectionInfo : Type := {
  URL : string;
  Username : string;
  Password : string
}.

Record Request (U : Type) : Type := {
  Method : string;
  RequestURL : U;
  Header : list (string * string);
  Body : string;
  ContentLength : nat;
  BasicAuth : string * string
}.
Arguments Method {U} _.
Arguments RequestURL {U} _.
Arguments Header {U} _.
Arguments Body {U} _.
Arguments ContentLength {U} _.
Arguments BasicAuth {U} _.

(** A response: its status, what [ioutil.ReadAll] of its body gives and what
    closing the body returns. *)
Record Response : Type := {
  StatusCode : Z;
  Status : string;
  ReadAll : result string;
  Close : option error
}.

Inductive event (U : Type) : Type :=
  | Fprintf (text : string)
  | BarStart (total : nat)
  | BarFinish
  | Sent (req : Request U)
  | BodyClosed.
Arguments Fprintf {U} _.
Arguments BarStart {U} _.
Arguments BarFinish {U}.
Arguments Sent {U} _.
Arguments BodyClosed {U}.

Definition StatusBadRequest : Z := 400.

Section Upload.

Variable pathBase : string → string.
Variable ReadFile : string → result string.
Variable sha1Hex : string → string.
Variable sha256Hex : string → string.
Variable md5Hex : string → string.
Variable U : Type.
Variable urlParse : string → result U.
Variable Do : Request U → result Response.
Variable quote : string → string.
Variable asFormat : string → string.

Definition artifactExistsFunc : Type := fileInfo → string → string → string → bool.

Definition newFileInfo (pathToFile : string) : result fileInfo :=
  match ReadFile pathToFile with
  | Err err => Err (Wrapf err ("Failed to read file " +:+ pathToFile))
  | Ok bytes =>
      Ok {| path := pathToFile; bytes := bytes;
            fileChecksums := {| SHA1 := sha1Hex bytes; SHA256 := sha256Hex bytes;
                                MD5 := md5Hex bytes |} |}
  end.

Definition rawUploadURL (baseURL artifactPath : string) : string :=
  Migration.Join [baseURL; pathBase artifactPath] "/".

(** The request [uploadFile] builds. *)
Definition putRequest (b : BasicConnectionInfo) (fi : fileInfo) (uploadURL : U) : Request U :=
  {| Method := "PUT"; RequestURL := uploadURL;
     Header := [("X-Checksum-Md5", MD5 (fileChecksums fi));
                ("X-Checksum-Sha1", SHA1 (fileChecksums fi));
                ("X-Checksum-Sha256", SHA256 (fileChecksums fi))];
     Body := bytes fi; ContentLength := String.length (bytes fi);
     BasicAuth := (Username b, Password b) |}.

(** The message for a response with a status of 400 or more. *)
Definition responseMessage (fi : fileInfo) (url : string) (resp : Response) : string :=
  let msg :=
    "uploading " +:+ path fi +:+ " to " +:+ url +:+ " resulted in response "
    +:+ quote (Status resp) in
  match ReadAll resp with
  | Ok bodyStr => if String.eqb bodyStr "" then msg else msg +:+ String "058" (String "010" bodyStr)
  | Err _ => msg
  end.

(** [artifactExists != nil && artifactExists(fileInfo, path.Base(artifactPath),
    b.Username, b.Password)] *)
Definition alreadyExists (b : BasicConnectionInfo) (artifactPath : string)
    (artifactExists : option artifactExistsFunc) (fi : fileInfo) : bool :=
  match artifactExists with
  | Some exists_ => exists_ fi (pathBase artifactPath) (Username b) (Password b)
  | None => false
  end.

(** [uploadFile]: the URL and the error it returns, and what it did.  The
    deferred calls run last: closing the body, whose failure becomes the
    result only if there is no failure yet, then the end of the progress
    bar. *)
Definition uploadFile (b : BasicConnectionInfo) (filePath baseURL artifactPath : string)
    (artifactExists : option artifactExistsFunc)
  : (string * option error) * list (event U) :=
  let url := rawUploadURL baseURL artifactPath in
  match newFileInfo filePath with
  | Err err => ((url, Some err), [])
  | Ok fi =>
      if alreadyExists b artifactPath artifactExists fi
      then ((url, None),
            [Fprintf ("File " +:+ filePath +:+ " already exists at " +:+ url
                      +:+ ", skipping upload." +:+ String "010" "")])
      else
        match urlParse url with
        | Err err => ((url, Some (Wrapf err ("Failed to parse " +:+ url +:+ " as URL"))), [])
        | Ok uploadURL =>
            let started :=
              [Fprintf ("Uploading " +:+ path fi +:+ " to " +:+ url +:+ String "010" "");
               BarStart (String.length (bytes fi))] in
            let req := putRequest b fi uploadURL in
            match Do req with
            | Err err =>
                ((url, Some (Wrapf err ("failed to upload " +:+ path fi +:+ " to " +:+ url))),
                 started ++ [Sent req; BarFinish])
            | Ok resp =>
                let rErr :=
                  if StatusBadRequest <=? StatusCode resp
                  then Some (errorString (asFormat (responseMessage fi url resp)))
                  else None in
                let rErr :=
                  match Close resp, rErr with
                  | Some err, None =>
                      Some (Wrapf err ("failed to close response body for URL " +:+ url))
                  | _, _ => rErr
                  end in
                ((url, rErr), started ++ [Sent req; BodyClosed; BarFinish])
            end
        end
  end.

Record ProductPaths : Type := {
  productPath : string;
  pomFilePath : string;
  artifactPath : string
}.

Definition uploadArtifacts (b : BasicConnectionInfo) (baseURL : string) (paths : ProductPaths)
    (artifactExists : option artifactExistsFunc)
  : (string * option error) * list (event U) :=
  let artifact := uploadFile b (artifactPath paths) baseURL (artifactPath paths) artifactExists in
  match snd (fst artifact) with
  | Some err => ((fst (fst artifact), Some err), snd artifact)
  | None =>
      let pom := uploadFile b (pomFilePath paths) baseURL (pomFilePath paths) artifactExists in
      ((fst (fst artifact), snd (fst pom)), snd artifact ++ snd pom)
  end.

(** A request has been sent. *)
Definition isSent (e : event U) : Prop := ∃ req, e = Sent req.

Lemma uploadFile_url (b : BasicConnectionInfo) (filePath baseURL artifactPath : string)
    (artifactExists : option artifactExistsFunc) :
  fst (fst (uploadFile b filePath baseURL artifactPath artifactExists))
  = baseURL +:+ "/" +:+ pathBase artifactPath.
Proof.
  unfold uploadFile.
  destruct (newFileInfo filePath) as [err|fi]; [reflexivity|].
  destruct (alreadyExists b artifactPath artifactExists fi); [reflexivity|].
  destruct (urlParse _) as [err|uploadURL]; [reflexivity|].
  destruct (Do _); reflexivity.
Qed.

(** X17. When the file can be read and [artifactExists] answers yes for it -
    it is asked with the file's content and its three digests, the base name
    of the artifact path and the credentials - [uploadFile] prints that the
    file already exists at the upload URL and that the upload is skipped,
    which is all it does: it returns the upload URL without an error and
    sends no request. *)
Theorem uploadFile_skips_existing (b : BasicConnectionInfo)
    (filePath baseURL artifactPath content : string) (exists_ : artifactExistsFunc) :
  ReadFile filePath = Ok content →
  exists_ {| path := filePath; bytes := content;
             fileChecksums := {| SHA1 := sha1Hex content; SHA256 := sha256Hex content;
                                 MD5 := md5Hex content |} |}
          (pathBase artifactPath) (Username b) (Password b) = true →
  uploadFile b filePath baseURL artifactPath (Some exists_)
  = ((baseURL +:+ "/" +:+ pathBase artifactPath, None),
     [Fprintf ("File " +:+ filePath +:+ " already exists at "
               +:+ (baseURL +:+ "/" +:+ pathBase artifactPath)
               +:+ ", skipping upload." +:+ String "010" "")]) ∧
  Forall (λ e, ¬ isSent e) (snd (uploadFile b filePath baseURL artifactPath (Some exists_))).
Proof.
  intros Hread Hexists. unfold uploadFile, newFileInfo, alreadyExists.
  rewrite Hread, Hexists.
  split; [done|]. repeat constructor. by intros [req ?].
Qed.

(** X18. [uploadFile] returns no error in two cases only: the file can be
    read and [artifactExists] says it is there already; or the file can be
    read, the URL parses, the request gets a response with a status below
    400 and the body of the response closes without an error. *)
Theorem uploadFile_success (b : BasicConnectionInfo) (filePath baseURL artifactPath : string)
    (artifactExists : option artifactExistsFunc) :
  snd (fst (uploadFile b filePath baseURL artifactPath artifactExists)) = None
  ↔ ∃ fi, newFileInfo filePath = Ok fi ∧
      (alreadyExists b artifactPath artifactExists fi = true ∨
       ∃ uploadURL resp,
         alreadyExists b artifactPath artifactExists fi = false ∧
         urlParse (rawUploadURL baseURL artifactPath) = Ok uploadURL ∧
         Do (putRequest b fi uploadURL) = Ok resp ∧
         StatusCode resp < StatusBadRequest ∧ Close resp = None).
Proof.
  unfold uploadFile.
  destruct (newFileInfo filePath) as [err|fi].
  { split; [done|]. by intros (fi & ? & _). }
  destruct (alreadyExists b artifactPath artifactExists fi) eqn:Hthere.
  { split; [|done]. intros _. exists fi. split; [done | by left]. }
  destruct (urlParse (rawUploadURL baseURL artifactPath)) as [err|uploadURL] eqn:Hurl.
  { split; [done|].
    intros (fi' & [= <-] & [? | (u & resp & _ & ? & _)]); congruence. }
  destruct (Do (putRequest b fi uploadURL)) as [err|resp] eqn:Hdo.
  { split; [done|].
    intros (fi' & [= <-] & [? | (u & resp & _ & [= <-] & Hdo' & _)]); congruence. }
  cbn [fst snd].
  destruct (Z.leb_spec StatusBadRequest (StatusCode resp)) as [Hbad|Hgood].
  - split; [by destruct (Close resp)|].
    intros (fi' & [= <-] & [? | (u & resp' & _ & [= <-] & Hdo' & Hlt & _)]); [congruence|].
    rewrite Hdo in Hdo'. injection Hdo' as <-. lia.
  - split.
    + intros Hnone. exists fi. split; [done|]. right. exists uploadURL, resp.
      repeat split; try done. by destruct (Close resp).
    + intros (fi' & [= <-] & [? | (u & resp' & _ & [= <-] & Hdo' & _ & Hclose)]);
        [congruence|].
      rewrite Hdo in Hdo'. injection Hdo' as <-. by rewrite Hclose.
Qed.

(** X19. Once the request has a response: a status of 400 or more makes the
    error the message with the quoted status, followed by the body of the
    response when that can be read and is not empty, and a failure to close
    the body does not replace it; with a lower status the error is the
    failure to close the body, wrapped, if there is one.  In both cases one
    request has been sent and the body has been closed. *)
Theorem uploadFile_response (b : BasicConnectionInfo) (filePath baseURL artifactPath : string)
    (artifactExists : option artifactExistsFunc) (fi : fileInfo) (uploadURL : U)
    (resp : Response) :
  newFileInfo filePath = Ok fi →
  alreadyExists b artifactPath artifactExists fi = false →
  urlParse (rawUploadURL baseURL artifactPath) = Ok uploadURL →
  Do (putRequest b fi uploadURL) = Ok resp →
  snd (fst (uploadFile b filePath baseURL artifactPath artifactExists))
  = (if StatusBadRequest <=? StatusCode resp
     then Some (errorString (asFormat (responseMessage fi (rawUploadURL baseURL artifactPath) resp)))
     else match Close resp with
          | Some err =>
              Some (Wrapf err ("failed to close response body for URL "
                               +:+ rawUploadURL baseURL artifactPath))
          | None => None
          end) ∧
  snd (uploadFile b filePath baseURL artifactPath artifactExists)
  = [Fprintf ("Uploading " +:+ path fi +:+ " to " +:+ rawUploadURL baseURL artifactPath
              +:+ String "010" "");
     BarStart (String.length (bytes fi));
     Sent (putRequest b fi uploadURL); BodyClosed; BarFinish].
Proof.
  intros Hfi Hthere Hurl Hdo. unfold uploadFile.
  rewrite Hfi, Hthere, Hurl, Hdo. cbn [fst snd app]. split; [|done].
  destruct (StatusBadRequest <=? StatusCode resp), (Close resp); done.
Qed.

(** X20. [uploadArtifacts] returns the upload URL of the artifact in every
    case; it succeeds exactly when both uploads do; and when the upload of
    the artifact fails, it returns that failure and does nothing for the POM
    file. *)
Theorem uploadArtifacts_outcome (b : BasicConnectionInfo) (baseURL : string)
    (paths : ProductPaths) (artifactExists : option artifactExistsFunc) :
  fst (fst (uploadArtifacts b baseURL paths artifactExists))
  = baseURL +:+ "/" +:+ pathBase (artifactPath paths) ∧
  (snd (fst (uploadArtifacts b baseURL paths artifactExists)) = None
   ↔ snd (fst (uploadFile b (artifactPath paths) baseURL (artifactPath paths) artifactExists))
     = None ∧
     snd (fst (uploadFile b (pomFilePath paths) baseURL (pomFilePath paths) artifactExists))
     = None) ∧
  (∀ err,
     snd (fst (uploadFile b (artifactPath paths) baseURL (artifactPath paths) artifactExists))
     = Some err →
     uploadArtifacts b baseURL paths artifactExists
     = uploadFile b (artifactPath paths) baseURL (artifactPath paths) artifactExists).
Proof.
  pose proof (uploadFile_url b (artifactPath paths) baseURL (artifactPath paths) artifactExists)
    as Hurl.
  unfold uploadArtifacts.
  destruct (uploadFile b (artifactPath paths) baseURL (artifactPath paths) artifactExists)
    as [[url [err|]] events]; cbn [fst snd] in *.
  - split; [done|]. split; [split; [done | by intros [? _]]|]. by intros err' [= <-].
  - split; [done|]. split; [split; [done | by intros [_ ?]]|]. done.
Qed.

End Upload.

(** *** Publishing the distributions of a product

    The build specification, its distributions and the Almanac settings are
    declared outside the file; so are [dist.ArtifactPath], the publisher and
    [almanacPublish].  [productPath] writes the POM file and answers with the
    paths; [os.Stat] is asked whether the artifact is there. *)
Inductive published (Spec Dist Almanac : Type) : Type :=
  | Published (spec : Spec) (paths : ProductPaths)
  | AlmanacPublished (artifactURL : string) (info : Almanac) (spec : Spec) (distCfg : Dist).
Arguments Published {Spec Dist Almanac} _ _.
Arguments AlmanacPublished {Spec Dist Almanac} _ _ _ _.

Section Products.

Variable Spec : Type.
Variable Dist : Type.
Variable AlmanacInfo : Type.
Variable ProductName : Spec → string.
Variable specDist : Spec → list Dist.
Variable ArtifactPath : Spec → Dist → string.
Variable artifactBuilt : string → bool.
Variable productPathOf : Spec → Dist → result ProductPaths.
Variable Publish : Spec → ProductPaths → result string.
Variable almanacPublish : string → AlmanacInfo → Spec → Dist → option error.

(** The inner loop of [DistsNotBuilt] for one product. *)
Definition distsNotBuiltOf (distsNotBuilt : list Spec) (currBuildSpecWithDeps : Spec)
  : list Spec :=
  foldl (λ distsNotBuilt currDistCfg,
           if artifactBuilt (ArtifactPath currBuildSpecWithDeps currDistCfg)
           then distsNotBuilt
           else distsNotBuilt ++ [currBuildSpecWithDeps])
        distsNotBuilt (specDist currBuildSpecWithDeps).

Definition DistsNotBuilt (buildSpecWithDeps : list Spec) : list Spec :=
  foldl distsNotBuiltOf [] buildSpecWithDeps.

(** The distributions of a product whose artifact is not there. *)
Definition missingDists (spec : Spec) : list Dist :=
  filter (λ d, artifactBuilt (ArtifactPath spec d) = false) (specDist spec).

(** One round of the loop of [Run]: the error that ends the loop, if any,
    and what has been published. *)
Definition publishDist (spec : Spec) (almanacInfo : option AlmanacInfo) (currDistCfg : Dist)
  : option error * list (published Spec Dist AlmanacInfo) :=
  let artifactPath := ArtifactPath spec currDistCfg in
  if negb (artifactBuilt artifactPath) then
    (Some (errorString ("distribution for " +:+ ProductName spec +:+ " does not exist at "
                        +:+ artifactPath)), [])
  else
    match productPathOf spec currDistCfg with
    | Err err => (Some (Wrapf err "failed to determine product paths"), [])
    | Ok paths =>
        match Publish spec paths with
        | Err err =>
            (Some (errorString ("Publish failed for " +:+ ProductName spec +:+ ": "
                                +:+ Error err)), [])
        | Ok artifactURL =>
            match almanacInfo with
            | Some info =>
                if negb (String.eqb artifactURL "") then
                  match almanacPublish artifactURL info spec currDistCfg with
                  | Some err =>
                      (Some (errorString ("Almanac publish failed for " +:+ ProductName spec
                                          +:+ ": " +:+ Error err)),
                       [Published spec paths])
                  | None =>
                      (None, [Published spec paths;
                              AlmanacPublished artifactURL info spec currDistCfg])
                  end
                else (None, [Published spec paths])
            | None => (None, [Published spec paths])
            end
        end
    end.

Fixpoint publishDists (spec : Spec) (almanacInfo : option AlmanacInfo) (dists : list Dist)
  : option error * list (published Spec Dist AlmanacInfo) :=
  match dists with
  | [] => (None, [])
  | currDistCfg :: rest =>
      match publishDist spec almanacInfo currDistCfg with
      | (Some err, done) => (Some err, done)
      | (None, done) =>
          let r := publishDists spec almanacInfo rest in
          (fst r, done ++ snd r)
      end
  end.

(** [Run] *)
Definition Run (spec : Spec) (almanacInfo : option AlmanacInfo)
  : option error * list (published Spec Dist AlmanacInfo) :=
  publishDists spec almanacInfo (specDist spec).

Lemma distsNotBuiltOf_eq (acc : list Spec) (spec : Spec) :
  distsNotBuiltOf acc spec = acc ++ ((λ _, spec) <$> missingDists spec).
Proof.
  unfold distsNotBuiltOf, missingDists. revert acc.
  induction (specDist spec) as [|d dists IH]; intros acc; simpl.
  - by rewrite app_nil_r.
  - rewrite IH, filter_cons.
    destruct (artifactBuilt (ArtifactPath spec d)) eqn:Hbuilt.
    + by rewrite decide_False by done.
    + rewrite decide_True by done. simpl. by rewrite <- app_assoc.
Qed.

Lemma DistsNotBuilt_eq (specs : list Spec) :
  DistsNotBuilt specs = specs ≫= λ spec, (λ _, spec) <$> missingDists spec.
Proof.
  unfold DistsNotBuilt.
  assert (∀ acc, foldl distsNotBuiltOf acc specs
                 = acc ++ (specs ≫= λ spec, (λ _, spec) <$> missingDists spec)) as Hfold.
  { induction specs as [|spec specs IH]; intros acc; simpl.
    - by rewrite app_nil_r.
    - rewrite IH, distsNotBuiltOf_eq. by rewrite <- app_assoc. }
  apply (Hfold []).
Qed.

(** X21. [DistsNotBuilt] is empty exactly when every distribution of every
    product has its artifact; a product is in it exactly when one of its
    distributions has none; and it is listed once for each such
    distribution, so the length of the result is the number of missing
    artifacts. *)
Theorem DistsNotBuilt_spec (specs : list Spec) :
  (DistsNotBuilt specs = [] ↔
     ∀ spec d, spec ∈ specs → d ∈ specDist spec →
               artifactBuilt (ArtifactPath spec d) = true) ∧
  (∀ spec, spec ∈ DistsNotBuilt specs ↔
     spec ∈ specs ∧ ∃ d, d ∈ specDist spec ∧ artifactBuilt (ArtifactPath spec d) = false) ∧
  length (DistsNotBuilt specs) = sum_list (length ∘ missingDists <$> specs).
Proof.
  rewrite DistsNotBuilt_eq.
  assert (∀ spec, spec ∈ (specs ≫= λ spec, (λ _, spec) <$> missingDists spec) ↔
     spec ∈ specs ∧ ∃ d, d ∈ specDist spec ∧ artifactBuilt (ArtifactPath spec d) = false)
    as Hin.
  { intros spec. rewrite list_elem_of_bind. split.
    - intros (spec' & (d & -> & [Hd Hin]%list_elem_of_filter)%list_elem_of_fmap & Hspec).
      split; [done|]. by exists d.
    - intros (Hspec & d & Hd & Hmissing). exists spec. split; [|done].
      apply list_elem_of_fmap. exists d. split; [done|]. by apply list_elem_of_filter. }
  split; [|split; [done|]].
  - split.
    + intros Hnil spec d Hspec Hd.
      destruct (artifactBuilt (ArtifactPath spec d)) eqn:Hbuilt; [done|].
      assert (spec ∈ (specs ≫= λ spec, (λ _, spec) <$> missingDists spec)) as Hcontra
        by (apply Hin; split; [done | by exists d]).
      rewrite Hnil in Hcontra. by apply elem_of_nil in Hcontra.
    + intros Hall.
      destruct (specs ≫= λ spec, (λ _, spec) <$> missingDists spec) as [|spec l] eqn:Heq;
        [done|].
      assert (spec ∈ spec :: l) as Hcontra by (by left).
      apply Hin in Hcontra as (Hspec & d & Hd & Hmissing).
      rewrite (Hall spec d Hspec Hd) in Hmissing. discriminate Hmissing.
  - clear Hin. induction specs as [|spec specs IH]; [done|].
    rewrite bind_cons, length_app, length_fmap, fmap_cons. simpl. by rewrite IH.
Qed.

(** X22. [Run] is fail-fast: when the distributions before one publish
    without an error and that one fails, [Run] returns its failure, what has
    been published is what those rounds published, and nothing is done for
    the distributions after it. *)
Theorem Run_stops_at_first_failure (spec : Spec) (almanacInfo : option AlmanacInfo)
    (before after : list Dist) (failing : Dist) (err : error) :
  specDist spec = before ++ failing :: after →
  Forall (λ d, fst (publishDist spec almanacInfo d) = None) before →
  fst (publishDist spec almanacInfo failing) = Some err →
  Run spec almanacInfo
  = (Some err,
     (before ≫= λ d, snd (publishDist spec almanacInfo d))
     ++ snd (publishDist spec almanacInfo failing)).
Proof.
  intros Hdists Hbefore Hfail. unfold Run. rewrite Hdists. clear Hdists.
  induction Hbefore as [|d before Hd _ IH]; cbn [app publishDists mbind list_bind].
  - destruct (publishDist spec almanacInfo failing) as [[e|] done]; simpl in *; congruence.
  - destruct (publishDist spec almanacInfo d) as [[e|] done]; [discriminate Hd|].
    rewrite IH. cbn [fst snd]. by rewrite <- app_assoc.
Qed.

(** X23. [Run] returns no error exactly when every distribution publishes
    without one; a product without distributions publishes nothing and
    succeeds; a distribution whose artifact is not there publishes
    nothing. *)
Theorem Run_success (spec : Spec) (almanacInfo : option AlmanacInfo) :
  (fst (Run spec almanacInfo) = None
   ↔ Forall (λ d, fst (publishDist spec almanacInfo d) = None) (specDist spec)) ∧
  (specDist spec = [] → Run spec almanacInfo = (None, [])) ∧
  (∀ d, artifactBuilt (ArtifactPath spec d) = false →
        ∃ e, publishDist spec almanacInfo d = (Some e, [])).
Proof.
  split; [|split].
  - unfold Run. induction (specDist spec) as [|d dists IH]; cbn [publishDists].
    + split; [constructor | done].
    + rewrite Forall_cons. destruct (publishDist spec almanacInfo d) as [[e|] done]; simpl.
      * split; [done | by intros [? _]].
      * rewrite IH. tauto.
  - intros Hnil. unfold Run. by rewrite Hnil.
  - intros d Hmissing. unfold publishDist. rewrite Hmissing. by eexists.
Qed.

End Products.

(** *** The properties at work *)

Definition exampleBase (p : string) : string :=
  default "" (last (Migration.splitOn "/" p)).

Definition exampleReadFile (p : string) : result string :=
  if String.eqb p "/out/foo-1.0.0.sls.tgz" then Ok "archive"
  else if String.eqb p "/out/foo-1.0.0.pom" then Ok "<project/>"
  else Err (errorString ("open " +:+ p +:+ ": no such file or directory")).

Definition exampleConnection : BasicConnectionInfo :=
  {| URL := "https://repo.example.com"; Username := "deployer"; Password := "secret" |}.

(** Stand-ins for the digests: the name of the digest and the content. *)
Definition exampleUpload (artifactExists : option artifactExistsFunc)
    (Do : Request string → result Response) (filePath : string)
  : (string * option error) * list (event string) :=
  uploadFile exampleBase exampleReadFile (String.append "sha1:") (String.append "sha256:")
             (String.append "md5:") string (λ url, Ok url) Do Pluginapi.exampleQuote id
             exampleConnection filePath "https://repo.example.com/com/group/foo/1.0.0"
             filePath artifactExists.

(** A repository that already has the file with this MD5 digest. *)
Definition exampleExists (fi : fileInfo) (dstFileName username password : string) : bool :=
  checksums_match (fileChecksums fi) {| SHA1 := ""; SHA256 := ""; MD5 := "md5:archive" |}.

Definition exampleConflict (req : Request string) : result Response :=
  Ok {| StatusCode := 409; Status := "409 Conflict"; ReadAll := Ok "exists";
        Close := Some (errorString "connection reset") |}.

Lemma checksums_match_computed_witness :
  checksums_match {| SHA1 := "sha1:archive"; SHA256 := "sha256:archive"; MD5 := "md5:archive" |}
                  {| SHA1 := ""; SHA256 := ""; MD5 := "md5:archive" |} = true.
Proof.
  apply (checksums_match_computed
           {| SHA1 := "sha1:archive"; SHA256 := "sha256:archive"; MD5 := "md5:archive" |}
           {| SHA1 := ""; SHA256 := ""; MD5 := "md5:archive" |}).
  - repeat split; discriminate.
  - split; [intros (Hmd5 & _ & _); discriminate Hmd5|].
    split; [by right|]. split; by left.
Defined.

Lemma uploadFile_skips_existing_witness :
  exampleUpload (Some exampleExists) exampleConflict "/out/foo-1.0.0.sls.tgz"
  = (("https://repo.example.com/com/group/foo/1.0.0" +:+ "/" +:+ exampleBase "/out/foo-1.0.0.sls.tgz",
      None),
     [Fprintf ("File " +:+ "/out/foo-1.0.0.sls.tgz" +:+ " already exists at "
               +:+ ("https://repo.example.com/com/group/foo/1.0.0" +:+ "/"
                    +:+ exampleBase "/out/foo-1.0.0.sls.tgz")
               +:+ ", skipping upload." +:+ String "010" "")]) ∧
  Forall (λ e, ¬ isSent string e)
         (snd (exampleUpload (Some exampleExists) exampleConflict "/out/foo-1.0.0.sls.tgz")).
Proof.
  apply (uploadFile_skips_existing exampleBase exampleReadFile (String.append "sha1:")
           (String.append "sha256:") (String.append "md5:") string (λ url, Ok url)
           exampleConflict Pluginapi.exampleQuote id exampleConnection
           "/out/foo-1.0.0.sls.tgz" "https://repo.example.com/com/group/foo/1.0.0"
           "/out/foo-1.0.0.sls.tgz" "archive" exampleExists).
  - reflexivity.
  - reflexivity.
Defined.

Lemma uploadFile_response_witness :
  Error <$> snd (fst (exampleUpload None exampleConflict "/out/foo-1.0.0.sls.tgz"))
  = Some ("uploading /out/foo-1.0.0.sls.tgz to https://repo.example.com/com/group/foo/1.0.0/foo-1.0.0.sls.tgz resulted in response "
          +:+ Pluginapi.exampleQuote "409 Conflict" +:+ String "058" (String "010" "exists")).
Proof.
  unfold exampleUpload.
  rewrite (proj1 (uploadFile_response exampleBase exampleReadFile (String.append "sha1:")
           (String.append "sha256:") (String.append "md5:") string (λ url, Ok url)
           exampleConflict Pluginapi.exampleQuote id exampleConnection
           "/out/foo-1.0.0.sls.tgz" "https://repo.example.com/com/group/foo/1.0.0"
           "/out/foo-1.0.0.sls.tgz" None
           {| path := "/out/foo-1.0.0.sls.tgz"; bytes := "archive";
              fileChecksums := {| SHA1 := "sha1:archive"; SHA256 := "sha256:archive";
                                  MD5 := "md5:archive" |} |}
           "https://repo.example.com/com/group/foo/1.0.0/foo-1.0.0.sls.tgz"
           {| StatusCode := 409; Status := "409 Conflict"; ReadAll := Ok "exists";
              Close := Some (errorString "connection reset") |}
           eq_refl eq_refl eq_refl eq_refl)).
  reflexivity.
Defined.

(** A product with three distributions, the second of which is not built. *)
Definition exampleDists (product : string) : list string := ["sls"; "bin"; "rpm"].

Definition exampleArtifactPath (product dist : string) : string :=
  "/out/" +:+ product +:+ "." +:+ dist.

Definition exampleBuilt (p : string) : bool := negb (String.eqb p "/out/foo.bin").

Definition exampleRun : option error * list (published string string unit) :=
  Run string string unit id exampleDists exampleArtifactPath exampleBuilt
      (λ product dist,
         Ok {| productPath := "com/group/" +:+ product; pomFilePath := "/out/" +:+ product +:+ ".pom";
               artifactPath := exampleArtifactPath product dist |})
      (λ product paths, Ok ("https://repo.example.com/" +:+ artifactPath paths))
      (λ url info product dist, None)
      "foo" None.

Lemma Run_stops_at_first_failure_witness :
  exampleRun
  = (Some (errorString "distribution for foo does not exist at /out/foo.bin"),
     [Published "foo" {| productPath := "com/group/foo"; pomFilePath := "/out/foo.pom";
                         artifactPath := "/out/foo.sls" |}]).
Proof.
  apply (Run_stops_at_first_failure string string unit id exampleDists exampleArtifactPath
           exampleBuilt
           (λ product dist,
              Ok {| productPath := "com/group/" +:+ product;
                    pomFilePath := "/out/" +:+ product +:+ ".pom";
                    artifactPath := exampleArtifactPath product dist |})
           (λ product paths, Ok ("https://repo.example.com/" +:+ artifactPath paths))
           (λ url info product dist, None)
           "foo" None ["sls"] ["rpm"] "bin").
  - reflexivity.
  - repeat constructor.
  - reflexivity.
Defined.

End PublishFacts.

(** ** More on the distgo configuration *)
Module ConfigFacts.

Import Config.

(** [Project], with the products as a map, and [params.Project].  The
    product configuration, its parameter form and the matcher built from the
    excludes are taken as they come. *)
Record Project (Product : Type) : Type := {
  Products : gmap string Product;
  BuildOutputDir : string;
  DistOutputDir : string;
  DistScriptInclude : string;
  GroupID : string;
  Exclude : Migration.NamesPathsCfg
}.
Arguments Products {Product} _.
Arguments BuildOutputDir {Product} _.
Arguments DistOutputDir {Product} _.
Arguments DistScriptInclude {Product} _.
Arguments GroupID {Product} _.
Arguments Exclude {Product} _.

Record ParamsProject (ParamsProduct Matcher : Type) : Type := {
  ParamsProducts : gmap string ParamsProduct;
  ParamsBuildOutputDir : string;
  ParamsDistOutputDir : string;
  ParamsDistScriptInclude : string;
  ParamsGroupID : string;
  ParamsExclude : Matcher
}.
Arguments ParamsProducts {ParamsProduct Matcher} _.
Arguments ParamsBuildOutputDir {ParamsProduct Matcher} _.
Arguments ParamsDistOutputDir {ParamsProduct Matcher} _.
Arguments ParamsDistScriptInclude {ParamsProduct Matcher} _.
Arguments ParamsGroupID {ParamsProduct Matcher} _.
Arguments ParamsExclude {ParamsProduct Matcher} _.

(** The zero value [Project{}]. *)
Definition zeroProject {Product} : Project Product :=
  {| Products := ∅; BuildOutputDir := ""; DistOutputDir := ""; DistScriptInclude := "";
     GroupID := ""; Exclude := {| Migration.Names := []; Migration.Paths := [] |} |}.

Section Loading.

Variable Product : Type.
Variable ParamsProduct : Type.
Variable Matcher : Type.
(** [Product.ToParam], [NamesPathsCfg.Matcher] and [NamesPathsCfg.Add] *)
Variable ToParam : Product → result ParamsProduct.
Variable toMatcher : Migration.NamesPathsCfg → Matcher.
Variable Add : Migration.NamesPathsCfg → Migration.NamesPathsCfg → Migration.NamesPathsCfg.
(** [yaml.Unmarshal] and [json.Unmarshal] into a zero [Project] *)
Variable yamlUnmarshal : string → result (Project Product).
Variable jsonUnmarshal : string → result (Project Product).

(** The loop of [Project.ToParams] over the products, in the order in which
    the map hands them out. *)
Fixpoint productsToParams (order : list (string * Product))
    (products : gmap string ParamsProduct) : result (gmap string ParamsProduct) :=
  match order with
  | [] => Ok products
  | (k, v) :: rest =>
      match ToParam v with
      | Err err => Err err
      | Ok productParam => productsToParams rest (<[k := productParam]> products)
      end
  end.

(** [Project.ToParams]; [order] is the order of the iteration over
    [cfg.Products], some enumeration of the map. *)
Definition ToParams (cfg : Project Product) (order : list (string * Product))
  : result (ParamsProject ParamsProduct Matcher) :=
  match productsToParams order ∅ with
  | Err err => Err err
  | Ok products =>
      Ok {| ParamsProducts := products;
            ParamsBuildOutputDir := BuildOutputDir cfg;
            ParamsDistOutputDir := DistOutputDir cfg;
            ParamsDistScriptInclude := DistScriptInclude cfg;
            ParamsGroupID := GroupID cfg;
            ParamsExclude := toMatcher (Exclude cfg) |}
  end.

Definition LoadRawConfig (ymlContent jsonContent : string) : result (Project Product) :=
  match
    (if negb (String.eqb ymlContent "") then
       match yamlUnmarshal ymlContent with
       | Err err => Err (Wrapf err ("failed to unmarshal yml " +:+ ymlContent))
       | Ok cfg => Ok cfg
       end
     else Ok zeroProject)
  with
  | Err err => Err err
  | Ok cfg =>
      if negb (String.eqb jsonContent "") then
        match jsonUnmarshal jsonContent with
        | Err err => Err err
        | Ok jsonCfg =>
            Ok {| Products := Products cfg; BuildOutputDir := BuildOutputDir cfg;
                  DistOutputDir := DistOutputDir cfg;
                  DistScriptInclude := DistScriptInclude cfg; GroupID := GroupID cfg;
                  Exclude := Add (Exclude cfg) (Exclude jsonCfg) |}
        end
      else Ok cfg
  end.

(** An enumeration of a map: every entry once. *)
Definition enumerates (order : list (string * Product)) (m : gmap string Product) : Prop :=
  order ≡ₚ map_to_list m.

(** The parameter form of a product, if it has one. *)
Definition paramOf (v : Product) : option ParamsProduct :=
  match ToParam v with
  | Ok p => Some p
  | Err _ => None
  end.

Lemma productsToParams_Ok (order : list (string * Product))
    (acc products : gmap string ParamsProduct) :
  NoDup (fst <$> order) →
  productsToParams order acc = Ok products →
  Forall (λ kv, is_Some (paramOf (snd kv))) order ∧
  ∀ k, products !! k
       = match list_to_map (M := gmap string Product) order !! k with
         | Some v => paramOf v
         | None => acc !! k
         end.
Proof.
  revert acc. induction order as [|[k v] order IH]; intros acc Hnd Hok.
  - injection Hok as <-. split; [constructor | done].
  - cbn [fmap list_fmap fst] in Hnd. apply NoDup_cons in Hnd as [Hk Hnd].
    cbn [productsToParams] in Hok.
    destruct (ToParam v) as [err|p] eqn:Hv; [discriminate|].
    destruct (IH _ Hnd Hok) as [Hall Hlookup]. split.
    + constructor; [|done]. unfold paramOf. simpl. rewrite Hv. by eexists.
    + intros k'. rewrite Hlookup. cbn [list_to_map foldr]. unfold curry. cbn [fst snd].
      destruct (decide (k = k')) as [<-|Hne].
      * rewrite (not_elem_of_list_to_map_1 (M := gmap string) order k Hk).
        rewrite !lookup_insert_eq. unfold paramOf. by rewrite Hv.
      * by rewrite !(lookup_insert_ne _ k k') by done.
Qed.

Lemma productsToParams_all (order : list (string * Product))
    (acc : gmap string ParamsProduct) :
  Forall (λ kv, is_Some (paramOf (snd kv))) order →
  ∃ products, productsToParams order acc = Ok products.
Proof.
  intros Hall. revert acc. induction Hall as [|[k v] order Hv _ IH]; intros acc.
  - by eexists.
  - cbn [productsToParams]. unfold paramOf in Hv. simpl in Hv.
    destruct (ToParam v) as [err|p]; [by destruct Hv|]. apply IH.
Qed.

(** X24. Whether [Project.ToParams] succeeds, and what it returns when it
    does, does not depend on the order in which the map of products is
    walked: it succeeds exactly when every product converts, and the result
    has the parameter form of each product under its key and the other
    settings copied.  (Only which error comes back can depend on the
    order.) *)
Theorem ToParams_order_independent (cfg : Project Product)
    (order : list (string * Product)) :
  enumerates order (Products cfg) →
  ((∃ params, ToParams cfg order = Ok params)
   ↔ ∀ k v, Products cfg !! k = Some v → is_Some (paramOf v)) ∧
  (∀ params, ToParams cfg order = Ok params →
     params = {| ParamsProducts := omap paramOf (Products cfg);
                 ParamsBuildOutputDir := BuildOutputDir cfg;
                 ParamsDistOutputDir := DistOutputDir cfg;
                 ParamsDistScriptInclude := DistScriptInclude cfg;
                 ParamsGroupID := GroupID cfg;
                 ParamsExclude := toMatcher (Exclude cfg) |}).
Proof.
  intros Henum. unfold enumerates in Henum.
  assert (NoDup (fst <$> order)) as Hnd
    by (rewrite Henum; apply NoDup_fst_map_to_list).
  assert (list_to_map (M := gmap string Product) order = Products cfg) as Hmap.
  { rewrite <- (list_to_map_to_list (Products cfg)).
    apply list_to_map_proper; [done | by rewrite Henum]. }
  assert (Forall (λ kv, is_Some (paramOf (snd kv))) order
          ↔ ∀ k v, Products cfg !! k = Some v → is_Some (paramOf v)) as Hall.
  { rewrite Forall_forall. split.
    - intros Hf k v Hkv. apply (Hf (k, v)). rewrite Henum. by apply elem_of_map_to_list.
    - intros Hf [k v] Hin. rewrite Henum in Hin. apply elem_of_map_to_list in Hin.
      by apply (Hf k v). }
  unfold ToParams. split.
  - rewrite <- Hall. split.
    + intros [params Hok].
      destruct (productsToParams order ∅) as [err|products] eqn:Hp; [discriminate|].
      by apply (productsToParams_Ok order ∅ products Hnd) in Hp as [? _].
    + intros Hf. destruct (productsToParams_all order ∅ Hf) as [products ->]. by eexists.
  - intros params Hok.
    destruct (productsToParams order ∅) as [err|products] eqn:Hp; [discriminate|].
    injection Hok as <-. f_equal.
    apply map_eq. intros k.
    destruct (productsToParams_Ok order ∅ products Hnd Hp) as [_ ->].
    rewrite Hmap, lookup_omap.
    destruct (Products cfg !! k); [done | by rewrite lookup_empty].
Qed.

(** X25. [LoadRawConfig] takes everything from the YAML content and only
    the excludes from the JSON content: a successful load has the products
    and the other settings of the YAML content alone, and its excludes are
    those of the YAML content with those of the JSON content added; without
    any content it returns the zero configuration without decoding
    anything. *)
Theorem LoadRawConfig_json_adds_excludes (ymlContent jsonContent : string)
    (cfg : Project Product) :
  LoadRawConfig ymlContent jsonContent = Ok cfg →
  ∃ base,
    LoadRawConfig ymlContent "" = Ok base ∧
    (ymlContent = "" → base = zeroProject) ∧
    Products cfg = Products base ∧ BuildOutputDir cfg = BuildOutputDir base ∧
    DistOutputDir cfg = DistOutputDir base ∧
    DistScriptInclude cfg = DistScriptInclude base ∧ GroupID cfg = GroupID base ∧
    (jsonContent = "" → cfg = base) ∧
    (jsonContent ≠ "" →
     ∃ jsonCfg, jsonUnmarshal jsonContent = Ok jsonCfg ∧
                Exclude cfg = Add (Exclude base) (Exclude jsonCfg)).
Proof.
  unfold LoadRawConfig. cbn [String.eqb negb].
  destruct (String.eqb_spec ymlContent "") as [->|Hyml]; cbn [negb].
  - destruct (String.eqb_spec jsonContent "") as [->|Hjson]; cbn [negb].
    + intros [= <-]. exists zeroProject. repeat split; done.
    + destruct (jsonUnmarshal jsonContent) as [err|jsonCfg]; [discriminate|].
      intros [= <-]. exists zeroProject. repeat split; try done.
      intros _. by exists jsonCfg.
  - destruct (yamlUnmarshal ymlContent) as [err|base]; [discriminate|].
    destruct (String.eqb_spec jsonContent "") as [->|Hjson]; cbn [negb].
    + intros [= <-]. exists base. repeat split; done.
    + destruct (jsonUnmarshal jsonContent) as [err|jsonCfg]; [discriminate|].
      intros [= <-]. exists base. repeat split; try done.
      intros _. by exists jsonCfg.
Qed.

End Loading.

Section Dists.

Variable Dist : Type.

(** X26. Whenever [RawDistConfigs.UnmarshalYAML] returns an error, [*out]
    is what it was; the error is the one about the missing dist when the
    node decodes as a sequence without elements, and otherwise, when the
    node decodes neither as a sequence nor as a single dist, the error of
    the decoding as a single dist.  A node that decodes as a sequence with
    elements is taken as that sequence, whatever it decodes to as a single
    dist. *)
Theorem UnmarshalYAML_failure (unmarshal : unmarshalFn Dist) (out : list Dist) :
  (∀ err, fst (UnmarshalYAML unmarshal out) = Some err →
     snd (UnmarshalYAML unmarshal out) = out ∧
     ((into_slice unmarshal = Ok [] ∧ err = noDistError) ∨
      (∃ sliceErr, into_slice unmarshal = Err sliceErr ∧ into_single unmarshal = Err err))) ∧
  (∀ d ds, into_slice unmarshal = Ok (d :: ds) →
     UnmarshalYAML unmarshal out = (None, d :: ds)).
Proof.
  unfold UnmarshalYAML. split.
  - intros err. destruct (into_slice unmarshal) as [sliceErr|[|d ds]]; simpl.
    + destruct (into_single unmarshal) as [singleErr|single]; simpl; [|discriminate].
      intros [= <-]. split; [done|]. right. by exists sliceErr.
    + intros [= <-]. split; [done|]. by left.
    + discriminate.
  - by intros d ds ->.
Qed.

End Dists.

Section Examples.

(** A project of two products, the second of which has no parameter form
    when its name is empty. *)
Definition exampleToParam (product : string) : result nat :=
  if String.eqb product "" then Err (errorString "product has no build") else Ok (String.length product).

Definition exampleProject : Project string :=
  {| Products := <["server" := "./cmd/server"]> (<["cli" := "./cmd/cli"]> ∅);
     BuildOutputDir := "build"; DistOutputDir := "dist"; DistScriptInclude := "";
     GroupID := "com.palantir";
     Exclude := {| Migration.Names := ["vendor"]; Migration.Paths := [] |} |}.

Definition exampleAdd (c1 c2 : Migration.NamesPathsCfg) : Migration.NamesPathsCfg :=
  {| Migration.Names := Migration.Names c1 ++ Migration.Names c2;
     Migration.Paths := Migration.Paths c1 ++ Migration.Paths c2 |}.

Definition exampleYAML (content : string) : result (Project string) :=
  if String.eqb content "group-id: com.palantir" then Ok exampleProject
  else Err (errorString "yaml: unmarshal errors").

Definition exampleJSON (content : string) : result (Project string) :=
  if String.eqb content "{}" then Ok zeroProject
  else Ok {| Products := <["ignored" := "./ignored"]> ∅;
             BuildOutputDir := "ignored"; DistOutputDir := ""; DistScriptInclude := "";
             GroupID := "ignored";
             Exclude := {| Migration.Names := []; Migration.Paths := ["generated"] |} |}.

End Examples.

Lemma ToParams_order_independent_witness :
  enumerates string (reverse (map_to_list (Products exampleProject))) (Products exampleProject) ∧
  ToParams string nat (list string) exampleToParam Migration.Names exampleProject
    (reverse (map_to_list (Products exampleProject)))
  = Ok {| ParamsProducts := <["server" := 12%nat]> (<["cli" := 9%nat]> ∅);
          ParamsBuildOutputDir := "build"; ParamsDistOutputDir := "dist";
          ParamsDistScriptInclude := ""; ParamsGroupID := "com.palantir";
          ParamsExclude := ["vendor"] |}.
Proof.
  assert (enumerates string (reverse (map_to_list (Products exampleProject)))
            (Products exampleProject)) as Henum by apply reverse_Permutation.
  split; [done|].
  destruct (ToParams_order_independent string nat (list string) exampleToParam
              Migration.Names exampleProject _ Henum) as [[_ Hsome] Hres].
  destruct Hsome as [params Hok].
  - intros k v Hkv. unfold paramOf, exampleToParam.
    destruct (String.eqb_spec v "") as [->|_]; [|by eexists].
    exfalso. revert Hkv. unfold exampleProject. cbn [Products].
    rewrite !lookup_insert_Some, lookup_empty.
    intros [[_ [=]]|[_ [[_ [=]]|[_ [=]]]]].
  - rewrite Hok, (Hres params Hok). reflexivity.
Defined.

Lemma LoadRawConfig_json_adds_excludes_witness :
  Exclude exampleProject = {| Migration.Names := ["vendor"]; Migration.Paths := [] |} ∧
  ∃ cfg, LoadRawConfig string exampleAdd exampleYAML exampleJSON
           "group-id: com.palantir" "{'group-id': 'ignored'}" = Ok cfg ∧
         Products cfg = Products exampleProject ∧ GroupID cfg = "com.palantir" ∧
         Exclude cfg = {| Migration.Names := ["vendor"]; Migration.Paths := ["generated"] |}.
Proof.
  split; [done|].
  assert (∃ cfg, LoadRawConfig string exampleAdd exampleYAML exampleJSON
                   "group-id: com.palantir" "{'group-id': 'ignored'}" = Ok cfg)
    as [cfg Hload] by (by eexists).
  exists cfg. split; [done|].
  destruct (LoadRawConfig_json_adds_excludes string exampleAdd exampleYAML exampleJSON
              _ _ cfg Hload)
    as (base & Hbase & _ & Hproducts & _ & _ & _ & Hgroup & _ & Hjson).
  injection Hbase as <-.
  destruct Hjson as (jsonCfg & Hdecode & Hexclude); [done|].
  injection Hdecode as <-. by rewrite Hproducts, Hgroup, Hexclude.
Defined.

End ConfigFacts.

(** ** The gunit parameters (package [params]) *)
Module Params.

Import Migration.

(** The character class of [tagRegExp], [[A-Za-z0-9_-]]. *)
Definition tagChar (c : ascii) : bool :=
  let n := nat_of_ascii c in
  (((65 <=? n) && (n <=? 90)) || ((97 <=? n) && (n <=? 122)) || ((48 <=? n) && (n <=? 57))
   || (n =? 95) || (n =? 45))%nat.

(** [tagRegExp.ReplaceAllString(src, repl)] for a replacement without [$]:
    every maximal run of characters of the class is one match and is replaced
    by [repl], every other byte is copied.  [inMatch] says that the byte
    before belongs to the match being replaced. *)
Fixpoint replaceAll (src repl : string) (inMatch : bool) : string :=
  match src with
  | EmptyString => ""
  | String c rest =>
      if tagChar c then
        if inMatch then replaceAll rest repl true
        else repl +:+ replaceAll rest repl true
      else String c (replaceAll rest repl false)
  end.

Definition ReplaceAllString (src repl : string) : string := replaceAll src repl false.

Definition validTagName (tag : string) : bool :=
  Nat.eqb (String.length (ReplaceAllString tag "")) 0.

Record GUnit (Matcher : Type) : Type := {
  Tags : gmap string Matcher;
  Exclude : Matcher
}.
Arguments Tags {Matcher} _.
Arguments Exclude {Matcher} _.

Section Validate.

Variable Matcher : Type.

(** [(p *GUnit) Validate()]; [order] is the order in which the keys of
    [p.Tags] come out of the iteration over the map. *)
Definition Validate (p : GUnit Matcher) (order : list string) : option error :=
  let invalidTagNames :=
    if (0 <? size (Tags p))%nat then
      foldl (λ invalidTagNames k,
               if negb (validTagName k) then invalidTagNames ++ [k] else invalidTagNames)
            [] order
    else [] in
  if (0 <? length invalidTagNames)%nat then
    Some (errorString ("invalid tag names: " +:+ fmtStrings (sortStrings invalidTagNames)))
  else None.

(** The keys of the tags, in the order of the map's own enumeration. *)
Definition tagNames (p : GUnit Matcher) : list string := fst <$> map_to_list (Tags p).

Lemma invalidTagNames_filter (order acc : list string) :
  foldl (λ invalidTagNames k,
           if negb (validTagName k) then invalidTagNames ++ [k] else invalidTagNames)
        acc order
  = acc ++ filter (λ k, validTagName k = false) order.
Proof.
  revert acc. induction order as [|k order IH]; intros acc; cbn [foldl].
  - by rewrite app_nil_r.
  - rewrite IH. destruct (validTagName k) eqn:Hk; cbn [negb].
    + by rewrite filter_cons_False by congruence.
    + rewrite filter_cons_True by done. by rewrite <- app_assoc.
Qed.

Lemma replaceAll_empty (tag : string) (inMatch : bool) :
  replaceAll tag "" inMatch = ""
  ↔ Forall (λ c, tagChar c = true) (list_ascii_of_string tag).
Proof.
  revert inMatch. induction tag as [|c tag IH]; intros inMatch; cbn [replaceAll list_ascii_of_string].
  - split; [constructor | done].
  - rewrite Forall_cons. destruct (tagChar c).
    + assert ((if inMatch then replaceAll tag "" true else "" +:+ replaceAll tag "" true)
              = replaceAll tag "" true) as -> by (by destruct inMatch).
      rewrite IH. split; [by intros | by intros [_ ?]].
    + split; [discriminate | by intros [[=] _]].
Qed.

(** X27. A tag name is valid exactly when each of its bytes is a letter, a
    digit, [_] or [-]; so the empty name is valid, and a name with a byte
    outside the class is not, wherever that byte stands. *)
Theorem validTagName_spec (tag : string) :
  (validTagName tag = true ↔ Forall (λ c, tagChar c = true) (list_ascii_of_string tag)) ∧
  validTagName "" = true ∧
  (∀ before c after, tagChar c = false → validTagName (before +:+ String c after) = false).
Proof.
  assert (∀ tag, validTagName tag = true
                 ↔ Forall (λ c, tagChar c = true) (list_ascii_of_string tag)) as Hspec.
  { intros t. rewrite <- (replaceAll_empty t false).
    unfold validTagName, ReplaceAllString. rewrite Nat.eqb_eq.
    destruct (replaceAll t "" false); simpl; naive_solver. }
  split; [apply Hspec | split; [done|]].
  intros before c after Hc. apply not_true_is_false. rewrite Hspec.
  intros Hall. rewrite Forall_forall in Hall.
  enough (tagChar c = true) by congruence. apply Hall.
  clear. induction before as [|b before IH]; cbn; [left | right]; done.
Qed.

(** X28. [Validate] does not depend on the order in which the map of tags is
    walked: it returns no error exactly when every tag name is valid, and
    otherwise the error that lists the invalid names, each once, in sorted
    order. *)
Theorem Validate_spec (p : GUnit Matcher) (order : list string) :
  order ≡ₚ tagNames p →
  Validate p order
  = match sortStrings (filter (λ k, validTagName k = false) (tagNames p)) with
    | [] => None
    | names => Some (errorString ("invalid tag names: " +:+ fmtStrings names))
    end ∧
  (Validate p order = None ↔ ∀ k, is_Some (Tags p !! k) → validTagName k = true).
Proof.
  intros Horder.
  assert (Validate p order
          = match sortStrings (filter (λ k, validTagName k = false) (tagNames p)) with
            | [] => None
            | names => Some (errorString ("invalid tag names: " +:+ fmtStrings names))
            end) as Heq.
  { unfold Validate. rewrite invalidTagNames_filter. cbn [app].
    assert ((if (0 <? size (Tags p))%nat then filter (λ k, validTagName k = false) order else [])
            = filter (λ k, validTagName k = false) order) as ->.
    { destruct (0 <? size (Tags p))%nat eqn:Hsize; [done|].
      apply Nat.ltb_ge in Hsize.
      assert (Tags p = ∅) as Hempty by (apply map_size_empty_iff; lia).
      unfold tagNames in Horder. rewrite Hempty, map_to_list_empty in Horder.
      by apply Permutation_nil_r in Horder as ->. }
    rewrite (sortStrings_order_independent
               (filter (λ k, validTagName k = false) order)
               (filter (λ k, validTagName k = false) (tagNames p)))
      by (by rewrite Horder).
    assert (length (filter (λ k, validTagName k = false) order)
            = length (sortStrings (filter (λ k, validTagName k = false) (tagNames p)))) as ->
      by (by rewrite sortStrings_perm, Horder).
    by destruct (sortStrings (filter (λ k, validTagName k = false) (tagNames p))). }
  split; [done|]. rewrite Heq.
  pose proof (sortStrings_perm (filter (λ k, validTagName k = false) (tagNames p))) as Hperm.
  split.
  - intros Hnone k [m Hk].
    destruct (sortStrings (filter (λ k, validTagName k = false) (tagNames p)));
      [|discriminate].
    symmetry in Hperm. apply Permutation_nil_r in Hperm.
    destruct (validTagName k) eqn:Hvalid; [done|].
    assert (k ∈ filter (λ k, validTagName k = false) (tagNames p)) as Hin.
    { apply list_elem_of_filter. split; [done|]. unfold tagNames.
      apply list_elem_of_fmap. exists (k, m). split; [done|]. by apply elem_of_map_to_list. }
    rewrite Hperm in Hin. by apply elem_of_nil in Hin.
  - intros Hvalid.
    destruct (sortStrings (filter (λ k, validTagName k = false) (tagNames p)))
      as [|k names]; [done|].
    assert (k ∈ filter (λ k, validTagName k = false) (tagNames p)) as Hin
      by (rewrite <- Hperm; left).
    apply list_elem_of_filter in Hin as [Hk Hin]. unfold tagNames in Hin.
    apply list_elem_of_fmap in Hin as ([k' m] & -> & Hin).
    apply elem_of_map_to_list in Hin. cbn [fst] in Hk.
    rewrite Hvalid in Hk by (by eexists). discriminate.
Qed.

End Validate.

Definition exampleGUnit : GUnit unit :=
  {| Tags := <["integration" := tt]> (<["slow tests" := tt]> (<["db/postgres" := tt]> ∅));
     Exclude := tt |}.

Lemma Validate_spec_witness :
  reverse (tagNames unit exampleGUnit) ≡ₚ tagNames unit exampleGUnit ∧
  Validate unit exampleGUnit (reverse (tagNames unit exampleGUnit))
  = Some (errorString "invalid tag names: [db/postgres slow tests]").
Proof.
  split; [apply reverse_Permutation|].
  rewrite (proj1 (Validate_spec unit exampleGUnit _ (reverse_Permutation _))).
  by vm_compute.
Defined.
End Params.
